(** * Axis construction of the parallel-coordinate plot

    A shallow embedding of [optuna/visualization/_parallel_coordinate.py]
    and the properties of the dimension list it hands to plotly.

    Modelling conventions.
    - A finite Python number (int or float) is the rational it denotes, a
      canonical [Qc]: comparisons, equality ([1 == 1.0]), [math.ceil] and
      dictionary lookup on finite numbers are exact on rationals.  NaN and
      the infinities are outside the model.
    - [math.log10], [math.pow] and the ["{:.3g}"] format are operations of
      the Python runtime; [_is_log_scale] and [_is_categorical] live in
      [optuna.visualization._utils].  All five are fields of an interface
      the development is parameterised by.
    - A Python exception is a value of [exn]; a call that may raise returns
      [except A].
    - A character of a [string] stands for one character of a Python [str].
    - The logger call and the plotly import guard have no effect on the
      returned figure and are left out. *)

From Stdlib Require Import ZArith QArith Qcanon Qround Lia.
From stdpp Require Import base option sorting gmap strings numbers list.

(** ** Python values and exceptions *)

Inductive pyval : Type :=
  | PNum (x : Qc)
  | PStr (s : string).

Global Instance pyval_eq_dec : EqDecision pyval.
Proof. solve_decision. Defined.

Inductive exn : Type :=
  | ValueError (msg : string)
  | TypeError.

Inductive except (A : Type) : Type :=
  | Ok (a : A)
  | Raise (e : exn).
Arguments Ok {A} a.
Arguments Raise {A} e.

Global Instance except_ret : MRet except := λ A, @Ok A.
Global Instance except_bind : MBind except := λ A B f m,
  match m with
  | Ok a => f a
  | Raise e => Raise e
  end.

(** An int as a Python number. *)
Definition PInt (n : Z) : pyval := PNum (Qc_of_Z n).

(** [a < b] and [a > b] on Python values: numbers compare with numbers,
    strings with strings, anything else is a [TypeError]. *)
Definition py_lt (a b : pyval) : except bool :=
  match a, b with
  | PNum x, PNum y => Ok (bool_decide (x < y)%Qc)
  | PStr s, PStr t => Ok (String.ltb s t)
  | _, _ => Raise TypeError
  end.

Definition py_gt (a b : pyval) : except bool := py_lt b a.

(** The loop of the builtins [min] and [max]: the running extremum is
    replaced when [op item current] holds, so the first extremal item wins. *)
Fixpoint min_max_loop (op : pyval → pyval → except bool)
    (current : pyval) (rest : list pyval) : except pyval :=
  match rest with
  | [] => Ok current
  | item :: rest' =>
      b ← op item current;
      min_max_loop op (if b : bool then item else current) rest'
  end.

Definition py_min (l : list pyval) : except pyval :=
  match l with
  | [] => Raise (ValueError "min() arg is an empty sequence")
  | x :: rest => min_max_loop py_lt x rest
  end.

Definition py_max (l : list pyval) : except pyval :=
  match l with
  | [] => Raise (ValueError "max() arg is an empty sequence")
  | x :: rest => min_max_loop py_gt x rest
  end.

(** [math.ceil]. *)
Definition py_ceil (v : pyval) : except Z :=
  match v with
  | PNum x => Ok (Qceiling x)
  | PStr _ => Raise TypeError
  end.

(** [range(a, b)]. *)
Definition py_range (a b : Z) : list Z := seqZ a (b - a).

(** [sorted(l, key=key)]: a stable sort that compares keys with [<] only.
    Any two stable sorts agree, so insertion from the right stands for
    Python's. *)
Section Sorted.
Context {A K : Type} (lt : K → K → bool) (key : A → K).

Fixpoint sorted_insert (x : A) (l : list A) : list A :=
  match l with
  | [] => [x]
  | y :: l' =>
      if lt (key y) (key x) then y :: sorted_insert x l' else x :: y :: l'
  end.

Definition sorted (l : list A) : list A := foldr sorted_insert [] l.
End Sorted.

(** ** Trials, studies and figures *)

Inductive TrialState : Type := RUNNING | COMPLETE | PRUNED | FAIL | WAITING.

Global Instance TrialState_eq_dec : EqDecision TrialState.
Proof. solve_decision. Defined.

Inductive StudyDirection : Type := NOT_SET | MINIMIZE | MAXIMIZE.

Global Instance StudyDirection_eq_dec : EqDecision StudyDirection.
Proof. solve_decision. Defined.

Record FrozenTrial : Type := {
  trial_state : TrialState;
  trial_params : gmap string pyval;
  trial_value : Qc
}.

Record Study : Type := {
  study_trials : list FrozenTrial;
  study_direction : StudyDirection
}.

(** One entry of [dims]: the keys ["tickvals"] and ["ticktext"] are absent
    from the dict of a plain axis. *)
Record Dim : Type := {
  label : string;
  values : list pyval;
  range : pyval * pyval;
  tickvals : option (list pyval);
  ticktext : option (list pyval)
}.

Record Line : Type := {
  color : list pyval;
  colorscale : string;
  colorbar_title : string;
  showscale : bool;
  reversescale : bool
}.

Record Parcoords : Type := {
  dimensions : list Dim;
  labelangle : Z;
  labelside : string;
  line : Line
}.

Record Figure : Type := {
  data : list Parcoords;
  layout_title : string
}.

(** The descriptor list a figure carries. *)
Definition descriptors (fig : Figure) : list Dim :=
  flat_map dimensions (data fig).

(** ** What the module imports *)

Class MathLib : Type := {
  (** [math.log10] on a number; [None] is the "math domain error". *)
  log10 : Qc → option Qc;
  (** [math.pow(10, x)]. *)
  pow10 : Qc → Qc;
  (** ["{:.3g}".format(x)]. *)
  fmt3g : Qc → string
}.

Class VisUtils : Type := {
  _is_log_scale : list FrozenTrial → string → bool;
  _is_categorical : list FrozenTrial → string → bool
}.

(** ** The category vocabulary

    [vocab = defaultdict(lambda: len(vocab))]: a dict keeps its keys in
    insertion order, so the vocabulary is the list of its items in that
    order. *)

Fixpoint vocab_get (vocab : list (pyval * nat)) (v : pyval) : option nat :=
  match vocab with
  | [] => None
  | (k, c) :: vocab' => if decide (k = v) then Some c else vocab_get vocab' v
  end.

(** [vocab[v]]: a missing key is given the code [len(vocab)] and stored. *)
Definition vocab_getitem (vocab : list (pyval * nat)) (v : pyval)
    : nat * list (pyval * nat) :=
  match vocab_get vocab v with
  | Some c => (c, vocab)
  | None => (length vocab, vocab ++ [(v, length vocab)])
  end.

(** [[vocab[v] for v in values]], threading the vocabulary. *)
Fixpoint encode (vocab : list (pyval * nat)) (values : list pyval)
    : list nat * list (pyval * nat) :=
  match values with
  | [] => ([], vocab)
  | v :: values' =>
      let '(c, vocab1) := vocab_getitem vocab v in
      let '(cs, vocab2) := encode vocab1 values' in
      (c :: cs, vocab2)
  end.

(** ** The plot *)

Section Plot.
Context `{MathLib} `{VisUtils}.

Definition py_log10 (v : pyval) : except pyval :=
  match v with
  | PNum x =>
      match log10 x with
      | Some y => Ok (PNum y)
      | None => Raise (ValueError "math domain error")
      end
  | PStr _ => Raise TypeError
  end.

(** ["{:.3g}".format(math.pow(10, x))] *)
Definition tick_text (x : pyval) : except pyval :=
  match x with
  | PNum q => Ok (PStr (fmt3g (pow10 q)))
  | PStr _ => Raise TypeError
  end.

(** [p_name if len(p_name) < 20 else "{}...".format(p_name[:17])] *)
Definition dim_label (p_name : string) : string :=
  if (String.length p_name <? 20)%nat then p_name
  else String.substring 0 17 p_name +:+ "...".

(** The inner loop over the trials (lines 130-133). *)
Definition collect_values (trials : list FrozenTrial) (p_name : string)
    : list pyval :=
  fold_left
    (λ values t,
       match trial_params t !! p_name with
       | Some v => values ++ [v]
       | None => values
       end)
    trials [].

(** Lines 136-150. *)
Definition log_dim (p_name : string) (values : list pyval) : except Dim :=
  values ← mapM py_log10 values;
  min_value ← py_min values;
  max_value ← py_max values;
  lo ← py_ceil min_value;
  hi ← py_ceil max_value;
  let tickvals := PInt <$> py_range lo hi in
  let tickvals :=
    if bool_decide (min_value ∈ tickvals) then tickvals
    else [min_value] ++ tickvals in
  let tickvals :=
    if bool_decide (max_value ∈ tickvals) then tickvals
    else tickvals ++ [max_value] in
  ticktext ← mapM tick_text tickvals;
  Ok {| label := dim_label p_name;
        values := values;
        range := (min_value, max_value);
        tickvals := Some tickvals;
        ticktext := Some ticktext |}.

(** Lines 152-160. *)
Definition categorical_dim (p_name : string) (values : list pyval)
    : except Dim :=
  let '(codes, vocab) := encode [] values in
  let values := (λ c : nat, PInt (Z.of_nat c)) <$> codes in
  lo ← py_min values;
  hi ← py_max values;
  Ok {| label := dim_label p_name;
        values := values;
        range := (lo, hi);
        tickvals := Some (PInt <$> py_range 0 (Z.of_nat (length vocab)));
        ticktext :=
          Some (sorted Nat.ltb (λ x, (vocab_getitem vocab x).1) vocab.*1) |}.

(** Lines 162-166. *)
Definition plain_dim (p_name : string) (values : list pyval) : except Dim :=
  lo ← py_min values;
  hi ← py_max values;
  Ok {| label := dim_label p_name;
        values := values;
        range := (lo, hi);
        tickvals := None;
        ticktext := None |}.

(** The body of the loop over [sorted_params]. *)
Definition build_dim (trials : list FrozenTrial) (p_name : string)
    : except Dim :=
  let values := collect_values trials p_name in
  if _is_log_scale trials p_name then log_dim p_name values
  else if _is_categorical trials p_name then categorical_dim p_name values
  else plain_dim p_name values.

(** The loop over [sorted_params], with [dims.append(dim)]. *)
Fixpoint build_dims (trials : list FrozenTrial) (sorted_params : list string)
    (dims : list Dim) : except (list Dim) :=
  match sorted_params with
  | [] => Ok dims
  | p_name :: rest =>
      dim ← build_dim trials p_name;
      build_dims trials rest (dims ++ [dim])
  end.

(** [{p_name for t in trials for p_name in t.params.keys()}] *)
Definition union_params (trials : list FrozenTrial) : gset string :=
  ⋃ ((λ t, dom (trial_params t)) <$> trials).

Definition unknown_parameter (input_p_name : string) : exn :=
  ValueError
    ("Parameter " +:+ input_p_name +:+ " does not exist in your study.").

(** The validation loop (lines 106-108). *)
Fixpoint check_params (all_params : gset string) (params : list string)
    : except unit :=
  match params with
  | [] => Ok ()
  | input_p_name :: rest =>
      if bool_decide (input_p_name ∈ all_params)
      then check_params all_params rest
      else Raise (unknown_parameter input_p_name)
  end.

(** Lines 104-109: the parameter set the plot shows. *)
Definition select_params (trials : list FrozenTrial)
    (params : option (list string)) : except (gset string) :=
  let all_params := union_params trials in
  match params with
  | Some ps => _ ← check_params all_params ps; Ok (list_to_set ps)
  | None => Ok all_params
  end.

(** Line 110: [sorted(list(all_params))], strings compared by [<]. *)
Definition sorted_params (trials : list FrozenTrial)
    (params : option (list string)) : except (list string) :=
  all_params ← select_params trials params;
  Ok (sorted String.ltb id (elements all_params)).

(** [trials = [trial for trial in study.trials
               if trial.state == TrialState.COMPLETE]] *)
Definition complete_trials (study : Study) : list FrozenTrial :=
  filter (λ trial, trial_state trial = COMPLETE) (study_trials study).

(** Lines 112-120: the target and the colour-scale flag. *)
Definition resolve_target (study : Study)
    (target : option (FrozenTrial → Qc)) : (FrozenTrial → Qc) * bool :=
  match target with
  | None => (trial_value, bool_decide (study_direction study = MINIMIZE))
  | Some f => (f, true)
  end.

Definition _get_parallel_coordinate_plot (study : Study)
    (params : option (list string)) (target : option (FrozenTrial → Qc))
    (target_name : string) : except Figure :=
  let layout := "Parallel Coordinate Plot" in
  let trials := complete_trials study in
  if (length trials =? 0)%nat then Ok {| data := []; layout_title := layout |}
  else
    sorted_params ← sorted_params trials params;
    let '(target, reversescale) := resolve_target study target in
    let target_values := (λ t, PNum (target t)) <$> trials in
    lo ← py_min target_values;
    hi ← py_max target_values;
    let dims :=
      [ {| label := target_name;
           values := target_values;
           range := (lo, hi);
           tickvals := None;
           ticktext := None |} ] in
    dims ← build_dims trials sorted_params dims;
    let traces :=
      [ {| dimensions := dims;
           labelangle := 30;
           labelside := "bottom";
           line := {| color := from_option values [] (head dims);
                      colorscale := "blues";
                      colorbar_title := target_name;
                      showscale := true;
                      reversescale := reversescale |} |} ] in
    Ok {| data := traces; layout_title := layout |}.
End Plot.

(** ** Reference definitions the properties are stated with *)

(** The distinct values of a sequence, in order of first occurrence. *)
Fixpoint first_seen (l : list pyval) : list pyval :=
  match l with
  | [] => []
  | v :: l' => v :: filter (λ w, w ≠ v) (first_seen l')
  end.

(** The position of [v] in [l] (the length of [l] when it is absent). *)
Fixpoint index_of (v : pyval) (l : list pyval) : nat :=
  match l with
  | [] => 0
  | k :: l' => if decide (k = v) then 0 else S (index_of v l')
  end.

(** The vocabulary whose keys, in insertion order, are [ks]. *)
Definition vocab_of (ks : list pyval) : list (pyval * nat) :=
  zip ks (seq 0 (length ks)).

(** The descriptor of a categorical axis, from the raw values of the
    parameter: codes are positions among the distinct values in first-seen
    order, the range runs from 0 to the last code, there is one tick per
    code and its text is the value the code stands for. *)
Definition categorical_axis (p_name : string) (raw : list pyval) : Dim :=
  {| label := dim_label p_name;
     values := (λ v, PInt (Z.of_nat (index_of v (first_seen raw)))) <$> raw;
     range := (PInt 0, PInt (Z.of_nat (length (first_seen raw)) - 1));
     tickvals :=
       Some ((λ c : nat, PInt (Z.of_nat c))
               <$> seq 0 (length (first_seen raw)));
     ticktext := Some (first_seen raw) |}.

(** The integers [range(ceil(lo), ceil(hi))] as numbers. *)
Definition log_int_ticks (lo hi : Qc) : list Qc :=
  Qc_of_Z <$> py_range (Qceiling lo) (Qceiling hi).

(** The ticks of a log axis with extrema [lo] and [hi]: the integers, with
    [lo] in front unless it is one of them, and [hi] at the end unless it
    equals [lo]. *)
Definition log_tickvals (lo hi : Qc) : list Qc :=
  (if decide (lo ∈ log_int_ticks lo hi) then [] else [lo])
  ++ log_int_ticks lo hi
  ++ (if decide (hi = lo) then [] else [hi]).

(** The same with the test the specification words for [hi]: appended
    unless it is one of the integers. *)
Definition worded_log_tickvals (lo hi : Qc) : list Qc :=
  (if decide (lo ∈ log_int_ticks lo hi) then [] else [lo])
  ++ log_int_ticks lo hi
  ++ (if decide (hi ∈ log_int_ticks lo hi) then [] else [hi]).

Section LogAxis.
Context `{MathLib}.

(** [y] is the base-10 logarithm of the raw value [v]. *)
Definition log10_of (v : pyval) (y : Qc) : Prop :=
  ∃ x, v = PNum x ∧ log10 x = Some y.

(** The descriptor of a log axis, from the logarithms [qs] of the raw
    values and their extrema. *)
Definition log_axis (p_name : string) (qs : list Qc) (lo hi : Qc) : Dim :=
  {| label := dim_label p_name;
     values := PNum <$> qs;
     range := (PNum lo, PNum hi);
     tickvals := Some (PNum <$> log_tickvals lo hi);
     ticktext :=
       Some ((λ x, PStr (fmt3g (pow10 x))) <$> log_tickvals lo hi) |}.
End LogAxis.

(** [lo] is the least and [hi] the greatest element of [qs]. *)
Definition extrema (qs : list Qc) (lo hi : Qc) : Prop :=
  lo ∈ qs ∧ Forall (λ y, (lo ≤ y)%Qc) qs
  ∧ hi ∈ qs ∧ Forall (λ y, (y ≤ hi)%Qc) qs.

(** The descriptor of the target axis, from the target values. *)
Definition target_axis (target_name : string) (vals : list Qc) (lo hi : Qc)
    : Dim :=
  {| label := target_name;
     values := PNum <$> vals;
     range := (PNum lo, PNum hi);
     tickvals := None;
     ticktext := None |}.

(** The figure with one trace over the descriptors [dims]. *)
Definition parcoords_figure (dims : list Dim) (target_name : string)
    (reversescale : bool) : Figure :=
  {| data :=
       [ {| dimensions := dims;
            labelangle := 30;
            labelside := "bottom";
            line := {| color := from_option values [] (head dims);
                       colorscale := "blues";
                       colorbar_title := target_name;
                       showscale := true;
                       reversescale := reversescale |} |} ];
     layout_title := "Parallel Coordinate Plot" |}.

Section WellTyped.
Context `{MathLib} `{VisUtils}.

End WellTyped.

(** Strict lexicographic order on strings. *)
Definition str_lt (s t : string) : Prop := String.ltb s t = true.

(** ** Worked inputs *)

(** The Python runtime on the few points the worked inputs use: the
    logarithms of 1, 10 and 100, the powers back, and their [.3g] text. *)
Definition table_log10 (x : Qc) : option Qc :=
  if decide (x = Qc_of_Z 1) then Some (Qc_of_Z 0)
  else if decide (x = Qc_of_Z 10) then Some (Qc_of_Z 1)
  else if decide (x = Qc_of_Z 100) then Some (Qc_of_Z 2)
  else None.

Definition table_pow10 (x : Qc) : Qc :=
  if decide (x = Qc_of_Z 0) then Qc_of_Z 1
  else if decide (x = Qc_of_Z 1) then Qc_of_Z 10
  else if decide (x = Qc_of_Z 2) then Qc_of_Z 100
  else Qc_of_Z 0.

Definition table_fmt3g (x : Qc) : string :=
  if decide (x = Qc_of_Z 1) then "1"
  else if decide (x = Qc_of_Z 10) then "10"
  else if decide (x = Qc_of_Z 100) then "100"
  else "?".

Definition table_math : MathLib :=
  {| log10 := table_log10; pow10 := table_pow10; fmt3g := table_fmt3g |}.

(** A study whose parameter ["x"] is log-distributed and whose parameter
    ["y"] is categorical; every other parameter is plain. *)
Definition xy_utils : VisUtils :=
  {| _is_log_scale := λ _ p, bool_decide (p = "x");
     _is_categorical := λ _ p, bool_decide (p = "y") |}.

Definition ex_trial (st : TrialState) (ps : list (string * pyval)) (v : Z)
    : FrozenTrial :=
  {| trial_state := st;
     trial_params := list_to_map ps;
     trial_value := Qc_of_Z v |}.

(** Four completed trials, the second of them without ["z"], and a failed
    trial, the only one with ["w"]. *)
Definition ex_study : Study :=
  {| study_trials :=
       [ ex_trial COMPLETE [("x", PInt 1); ("y", PStr "a"); ("z", PInt 4)] 5;
         ex_trial FAIL [("x", PInt 7); ("w", PInt 1)] 0;
         ex_trial COMPLETE [("x", PInt 10); ("y", PStr "b")] 3;
         ex_trial COMPLETE [("x", PInt 100); ("y", PStr "a"); ("z", PInt 2)] 9;
         ex_trial COMPLETE [("x", PInt 10); ("y", PStr "c"); ("z", PInt 4)] 7 ];
     study_direction := MINIMIZE |}.

(** The figure the plot of [ex_study] is. *)
Definition ex_figure : Figure :=
  parcoords_figure
    [ {| label := "Objective Value";
         values := [PInt 5; PInt 3; PInt 9; PInt 7];
         range := (PInt 3, PInt 9);
         tickvals := None;
         ticktext := None |};
      {| label := "x";
         values := [PInt 0; PInt 1; PInt 2; PInt 1];
         range := (PInt 0, PInt 2);
         tickvals := Some [PInt 0; PInt 1; PInt 2];
         ticktext := Some [PStr "1"; PStr "10"; PStr "100"] |};
      {| label := "y";
         values := [PInt 0; PInt 1; PInt 0; PInt 2];
         range := (PInt 0, PInt 2);
         tickvals := Some [PInt 0; PInt 1; PInt 2];
         ticktext := Some [PStr "a"; PStr "b"; PStr "c"] |};
      {| label := "z";
         values := [PInt 4; PInt 2; PInt 4];
         range := (PInt 2, PInt 4);
         tickvals := None;
         ticktext := None |} ]
    "Objective Value" true.

(** A study with one completed trial. *)
Definition ex_single : Study :=
  {| study_trials := [ ex_trial COMPLETE [("x", PInt 1)] 5 ];
     study_direction := MAXIMIZE |}.

(** A study none of whose trials completed. *)
Definition ex_no_complete : Study :=
  {| study_trials :=
       [ ex_trial FAIL [("x", PInt 1)] 0; ex_trial PRUNED [("x", PInt 10)] 0;
         ex_trial RUNNING [] 0 ];
     study_direction := MINIMIZE |}.

Definition ex_long_name : string := "this_is_a_very_long_parameter_name".

Definition ex_long_study : Study :=
  {| study_trials :=
       [ ex_trial COMPLETE [(ex_long_name, PInt 3); ("short", PInt 1)] 5 ];
     study_direction := MINIMIZE |}.

Definition ex_long_figure : Figure :=
  parcoords_figure
    [ {| label := "Objective Value"; values := [PInt 5];
         range := (PInt 5, PInt 5); tickvals := None; ticktext := None |};
      {| label := "short"; values := [PInt 1];
         range := (PInt 1, PInt 1); tickvals := None; ticktext := None |};
      {| label := "this_is_a_very_lo..."; values := [PInt 3];
         range := (PInt 3, PInt 3); tickvals := None; ticktext := None |} ]
    "Objective Value" true.

(** Two completed trials whose plain parameter ["m"] is a number in one and
    a string in the other, and whose log-scaled parameter ["x"] is 0 in the
    second. *)
Definition ex_bad_study : Study :=
  {| study_trials :=
       [ ex_trial COMPLETE [("a", PInt 3); ("m", PInt 1); ("x", PInt 1)] 5;
         ex_trial COMPLETE [("a", PInt 5); ("m", PStr "s"); ("x", PInt 0)] 3 ];
     study_direction := MINIMIZE |}.

(** [ex_study] without its failed trial. *)
Definition ex_study_completed : Study :=
  {| study_trials := complete_trials ex_study;
     study_direction := MINIMIZE |}.

(** The plot over the table runtime and the by-name classification. *)
Definition ex_plot : Study → option (list string) →
    option (FrozenTrial → Qc) → string → except Figure :=
  @_get_parallel_coordinate_plot table_math xy_utils.

Definition no_target : option (FrozenTrial → Qc) := None.

(** * Properties *)

(** ** The exception monad *)

Lemma bind_Ok {A B} (f : A → except B) (m : except A) (b : B) :
  m ≫= f = Ok b → ∃ a, m = Ok a ∧ f a = Ok b.
Proof. destruct m as [a|e]; simpl; [eauto | discriminate]. Qed.

Lemma mapM_Ok_Forall2 {A B} (f : A → except B) (l : list A) (k : list B) :
  mapM f l = Ok k ↔ Forall2 (λ x y, f x = Ok y) l k.
Proof.
  split.
  - revert k. induction l as [|x l IH]; intros k Hk; simpl in Hk.
    + inversion Hk. constructor.
    + apply bind_Ok in Hk as (y & Hy & Hk).
      apply bind_Ok in Hk as (k' & Hk' & Hk).
      inversion Hk; subst. constructor; auto.
  - induction 1 as [|x y l k Hxy _ IH]; simpl; [done|].
    rewrite Hxy. simpl. rewrite IH. done.
Qed.

(** ** [min] and [max] on numbers *)

Lemma min_loop_num (rest : list Qc) (cur : Qc) :
  ∃ m, min_max_loop py_lt (PNum cur) (PNum <$> rest) = Ok (PNum m)
       ∧ m ∈ cur :: rest ∧ (m ≤ cur)%Qc ∧ Forall (λ y, (m ≤ y)%Qc) rest.
Proof.
  revert cur. induction rest as [|item rest IH]; intros cur.
  - exists cur. repeat split; [left | apply Qcle_refl | constructor].
  - simpl. case_bool_decide as Hlt.
    + destruct (IH item) as (m & Hm & Hin & Hle & Hall).
      exists m. repeat split; [done | by right | | by constructor].
      apply Qcle_trans with item; [done | by apply Qclt_le_weak].
    + destruct (IH cur) as (m & Hm & Hin & Hle & Hall).
      apply Qcnot_lt_le in Hlt.
      exists m. repeat split; [done | | done | ].
      * apply elem_of_cons in Hin as [->|Hin]; [left | right; by right].
      * constructor; [|done]. by apply Qcle_trans with cur.
Qed.

Lemma max_loop_num (rest : list Qc) (cur : Qc) :
  ∃ m, min_max_loop py_gt (PNum cur) (PNum <$> rest) = Ok (PNum m)
       ∧ m ∈ cur :: rest ∧ (cur ≤ m)%Qc ∧ Forall (λ y, (y ≤ m)%Qc) rest.
Proof.
  revert cur. induction rest as [|item rest IH]; intros cur.
  - exists cur. repeat split; [left | apply Qcle_refl | constructor].
  - simpl. case_bool_decide as Hlt.
    + destruct (IH item) as (m & Hm & Hin & Hle & Hall).
      exists m. repeat split; [done | by right | | by constructor].
      apply Qcle_trans with item; [by apply Qclt_le_weak | done].
    + destruct (IH cur) as (m & Hm & Hin & Hle & Hall).
      apply Qcnot_lt_le in Hlt.
      exists m. repeat split; [done | | done | ].
      * apply elem_of_cons in Hin as [->|Hin]; [left | right; by right].
      * constructor; [|done]. by apply Qcle_trans with cur.
Qed.

(** [min] of a non-empty list of numbers returns an element that is a lower
    bound of the list. *)
Lemma py_min_num (qs : list Qc) :
  qs ≠ [] →
  ∃ m, py_min (PNum <$> qs) = Ok (PNum m)
       ∧ m ∈ qs ∧ Forall (λ y, (m ≤ y)%Qc) qs.
Proof.
  destruct qs as [|x rest]; [done|]. intros _.
  destruct (min_loop_num rest x) as (m & Hm & Hin & Hle & Hall).
  exists m. repeat split; [done | done | by constructor].
Qed.

Lemma py_max_num (qs : list Qc) :
  qs ≠ [] →
  ∃ m, py_max (PNum <$> qs) = Ok (PNum m)
       ∧ m ∈ qs ∧ Forall (λ y, (y ≤ m)%Qc) qs.
Proof.
  destruct qs as [|x rest]; [done|]. intros _.
  destruct (max_loop_num rest x) as (m & Hm & Hin & Hle & Hall).
  exists m. repeat split; [done | done | by constructor].
Qed.

Lemma py_min_Ok_nonempty (l : list pyval) (m : pyval) :
  py_min l = Ok m → l ≠ [].
Proof. by destruct l. Qed.

(** ** The order on strings *)

Lemma ascii_compare_refl (a : Ascii.ascii) : Ascii.compare a a = Eq.
Proof. apply N.compare_refl. Qed.

Lemma ascii_compare_lt_trans (a b c : Ascii.ascii) :
  Ascii.compare a b = Lt → Ascii.compare b c = Lt → Ascii.compare a c = Lt.
Proof.
  unfold Ascii.compare. rewrite !N.compare_lt_iff. apply N.lt_trans.
Qed.

Lemma string_compare_lt_trans (a b c : string) :
  String.compare a b = Lt → String.compare b c = Lt → String.compare a c = Lt.
Proof.
  revert b c. induction a as [|x a IH]; intros [|y b] [|z c]; simpl; try done.
  destruct (Ascii.compare x y) eqn:Hxy; try done;
    destruct (Ascii.compare y z) eqn:Hyz; try done; intros Hab Hbc.
  - apply Ascii.compare_eq_iff in Hxy, Hyz. subst.
    rewrite ascii_compare_refl. eauto.
  - apply Ascii.compare_eq_iff in Hxy. subst. by rewrite Hyz.
  - apply Ascii.compare_eq_iff in Hyz. subst. by rewrite Hxy.
  - by rewrite (ascii_compare_lt_trans x y z).
Qed.

Lemma str_lt_trans (a b c : string) : str_lt a b → str_lt b c → str_lt a c.
Proof.
  unfold str_lt, String.ltb. intros Hab Hbc.
  destruct (String.compare a b) eqn:Eab; try done.
  destruct (String.compare b c) eqn:Ebc; try done.
  by rewrite (string_compare_lt_trans a b c).
Qed.

Lemma str_lt_irrefl (a : string) : ¬ str_lt a a.
Proof.
  unfold str_lt, String.ltb. intros Haa.
  destruct (String.compare a a) eqn:E; try done.
  pose proof (String.compare_antisym a a) as Hanti.
  rewrite E in Hanti. done.
Qed.

Lemma str_lt_trichotomy (a b : string) :
  String.ltb a b = false → a ≠ b → str_lt b a.
Proof.
  unfold str_lt, String.ltb. intros Hab Hne.
  rewrite (String.compare_antisym a b) in Hab.
  destruct (String.compare b a) eqn:E; simpl in *; try done.
  apply String.compare_eq_iff in E. congruence.
Qed.

(** ** [sorted] *)

Section SortedFacts.
Context {A K : Type} (lt : K → K → bool) (key : A → K).

Lemma sorted_insert_perm (x : A) (l : list A) :
  sorted_insert lt key x l ≡ₚ x :: l.
Proof.
  induction l as [|y l IH]; simpl; [done|].
  destruct (lt (key y) (key x)); [|done].
  rewrite IH. apply Permutation_swap.
Qed.

Lemma sorted_perm (l : list A) : sorted lt key l ≡ₚ l.
Proof.
  induction l as [|x l IH]; simpl; [done|].
  rewrite sorted_insert_perm. by constructor.
Qed.

Lemma sorted_length (l : list A) : length (sorted lt key l) = length l.
Proof. by rewrite sorted_perm. Qed.

(** A list whose keys never decrease is left as it is. *)
Lemma sorted_id (l : list A) :
  StronglySorted (λ a b, lt (key b) (key a) = false) l →
  sorted lt key l = l.
Proof.
  induction 1 as [|x l Hl IH Hx]; [done|].
  change (sorted lt key (x :: l))
    with (sorted_insert lt key x (sorted lt key l)).
  rewrite IH. destruct l as [|y l']; simpl; [done|].
  by rewrite (Forall_inv Hx).
Qed.
End SortedFacts.

(** Sorting distinct strings gives a strictly increasing list. *)
Lemma sorted_insert_strings (x : string) (l : list string) :
  x ∉ l → StronglySorted str_lt l →
  StronglySorted str_lt (sorted_insert String.ltb id x l).
Proof.
  intros Hx Hl. induction Hl as [|y l Hl IH Hy]; simpl.
  - repeat constructor.
  - apply not_elem_of_cons in Hx as [Hxy Hxl]. cbv [id].
    destruct (String.ltb y x) eqn:Hyx.
    + constructor; [by apply IH|].
      rewrite sorted_insert_perm. by constructor.
    + assert (str_lt x y) as Hlt by by apply str_lt_trichotomy.
      constructor; [by constructor|].
      constructor; [done|].
      eapply List.Forall_impl; [|exact Hy]. intros z Hz. by eapply str_lt_trans.
Qed.

Lemma sorted_strings (l : list string) :
  NoDup l → StronglySorted str_lt (sorted String.ltb id l).
Proof.
  induction 1 as [|x l Hx Hl IH]; simpl; [constructor|].
  apply sorted_insert_strings; [|done].
  by rewrite sorted_perm.
Qed.

(** ** First occurrences and positions *)

Lemma elem_of_first_seen (x : pyval) (l : list pyval) :
  x ∈ first_seen l ↔ x ∈ l.
Proof.
  induction l as [|v l IH]; simpl; [done|].
  rewrite !elem_of_cons, list_elem_of_filter, IH.
  destruct (decide (x = v)); tauto.
Qed.

Lemma NoDup_first_seen (l : list pyval) : NoDup (first_seen l).
Proof.
  induction l as [|v l IH]; simpl; constructor.
  - rewrite list_elem_of_filter. intros [Hne _]. by apply Hne.
  - by apply list.NoDup_filter.
Qed.

Lemma first_seen_filter (P : pyval → Prop) `{∀ x, Decision (P x)}
    (l : list pyval) :
  filter P (first_seen l) = first_seen (filter P l).
Proof.
  induction l as [|v l IH]; simpl; [done|].
  rewrite filter_cons. destruct (decide (P v)) as [HP|HP].
  - rewrite filter_cons_True by done. simpl. f_equal.
    rewrite <-IH, !list_filter_filter. apply list_filter_iff. tauto.
  - rewrite filter_cons_False by done.
    rewrite <-IH, list_filter_filter. apply list_filter_iff.
    intros x. split; [tauto|]. intros HPx. split; [done|]. congruence.
Qed.

Lemma filter_not_elem_of_nil (l : list pyval) : filter (λ v, v ∉ []) l = l.
Proof.
  induction l as [|v l IH]; [done|].
  rewrite filter_cons_True by apply not_elem_of_nil. by rewrite IH.
Qed.

Lemma index_of_app_l (v : pyval) (ks l : list pyval) :
  v ∈ ks → index_of v (ks ++ l) = index_of v ks.
Proof.
  induction ks as [|k ks IH]; simpl; [by intros ?%elem_of_nil|].
  intros Hin. destruct (decide (k = v)); [done|].
  f_equal. apply IH. apply elem_of_cons in Hin as [->|]; done.
Qed.

Lemma index_of_app_r (v : pyval) (ks l : list pyval) :
  v ∉ ks → index_of v (ks ++ l) = length ks + index_of v l.
Proof.
  induction ks as [|k ks IH]; simpl; [done|].
  intros [Hne Hnin]%not_elem_of_cons.
  destruct (decide (k = v)); [congruence|]. f_equal. by apply IH.
Qed.

Lemma index_of_notin (v : pyval) (l : list pyval) :
  v ∉ l → index_of v l = length l.
Proof.
  intros Hnin. rewrite <-(app_nil_r l) at 1.
  rewrite index_of_app_r by done. simpl. lia.
Qed.

Lemma index_of_lookup (v : pyval) (l : list pyval) :
  v ∈ l → l !! index_of v l = Some v.
Proof.
  induction l as [|k l IH]; simpl; [by intros ?%elem_of_nil|].
  intros Hin. destruct (decide (k = v)) as [->|Hne]; [done|].
  simpl. apply IH. apply elem_of_cons in Hin as [->|]; done.
Qed.

Lemma index_of_lt (v : pyval) (l : list pyval) :
  v ∈ l → index_of v l < length l.
Proof. intros Hin. eapply lookup_lt_Some. by apply index_of_lookup. Qed.

(** ** The vocabulary *)

Lemma length_vocab_of (ks : list pyval) : length (vocab_of ks) = length ks.
Proof. unfold vocab_of. rewrite length_zip, length_seq. lia. Qed.

Lemma vocab_of_keys (ks : list pyval) : (vocab_of ks).*1 = ks.
Proof. unfold vocab_of. apply fst_zip. by rewrite length_seq. Qed.

Lemma vocab_of_snoc (ks : list pyval) (v : pyval) :
  vocab_of (ks ++ [v]) = vocab_of ks ++ [(v, length ks)].
Proof.
  unfold vocab_of. rewrite length_app. simpl.
  rewrite seq_app. simpl. rewrite zip_with_app by by rewrite length_seq.
  done.
Qed.

Lemma vocab_get_zip (ks : list pyval) (n : nat) (v : pyval) :
  vocab_get (zip ks (seq n (length ks))) v
  = if decide (v ∈ ks) then Some (n + index_of v ks) else None.
Proof.
  revert n. induction ks as [|k ks IH]; intros n.
  - rewrite decide_False by apply not_elem_of_nil. done.
  - cbn [length seq zip_with vocab_get index_of]. rewrite IH.
    destruct (decide (k = v)) as [->|Hne].
    + rewrite decide_True by left. f_equal. lia.
    + destruct (decide (v ∈ ks)) as [Hin|Hnin].
      * rewrite decide_True by by right. f_equal. lia.
      * rewrite decide_False; [done|].
        rewrite elem_of_cons. intros [->|?]; done.
Qed.

Lemma vocab_getitem_of (ks : list pyval) (v : pyval) :
  vocab_getitem (vocab_of ks) v
  = if decide (v ∈ ks) then (index_of v ks, vocab_of ks)
    else (length ks, vocab_of (ks ++ [v])).
Proof.
  unfold vocab_getitem. unfold vocab_of at 1. rewrite vocab_get_zip.
  destruct (decide (v ∈ ks)); [done|].
  by rewrite length_vocab_of, vocab_of_snoc.
Qed.

Lemma vocab_getitem_code (ks : list pyval) (v : pyval) :
  (vocab_getitem (vocab_of ks) v).1 = index_of v ks.
Proof.
  rewrite vocab_getitem_of. destruct (decide (v ∈ ks)); simpl; [done|].
  by rewrite index_of_notin.
Qed.

(** The comprehension gives every value its position among the distinct
    values seen so far, and leaves the vocabulary holding exactly those. *)
Lemma encode_vocab_of (values ks : list pyval) :
  encode (vocab_of ks) values
  = ((λ v, index_of v (ks ++ first_seen (filter (λ v, v ∉ ks) values)))
       <$> values,
     vocab_of (ks ++ first_seen (filter (λ v, v ∉ ks) values))).
Proof.
  revert ks. induction values as [|v values IH]; intros ks; simpl.
  - by rewrite app_nil_r.
  - rewrite vocab_getitem_of, filter_cons.
    destruct (decide (v ∈ ks)) as [Hin|Hnin].
    + rewrite decide_False by tauto.
      rewrite IH. simpl. by rewrite (index_of_app_l v ks) by done.
    + rewrite decide_True by done. rewrite IH. simpl.
      assert (filter (λ w, w ∉ ks ++ [v]) values
              = filter (λ w, w ≠ v) (filter (λ w, w ∉ ks) values)) as ->.
      { rewrite list_filter_filter. apply list_filter_iff. intros w.
        rewrite elem_of_app, list_elem_of_singleton. tauto. }
      rewrite <-first_seen_filter, <-(assoc_L (++)). simpl.
      rewrite (index_of_app_r v ks) by done. simpl.
      rewrite decide_True by done. do 2 f_equal. lia.
Qed.

Lemma encode_first_seen (values : list pyval) :
  encode [] values
  = ((λ v, index_of v (first_seen values)) <$> values,
     vocab_of (first_seen values)).
Proof.
  pose proof (encode_vocab_of values []) as Henc.
  rewrite filter_not_elem_of_nil in Henc. exact Henc.
Qed.

Lemma index_of_NoDup (l : list pyval) (i : nat) (v : pyval) :
  NoDup l → l !! i = Some v → index_of v l = i.
Proof.
  intros Hnd Hi. eapply NoDup_lookup; [done| |done].
  apply index_of_lookup. by eapply list_elem_of_lookup_2.
Qed.

(** Distinct keys stand in the order of their positions. *)
Lemma index_of_sorted (pre l : list pyval) :
  NoDup (pre ++ l) →
  StronglySorted
    (λ a b, (index_of b (pre ++ l) <? index_of a (pre ++ l)) = false) l.
Proof.
  revert pre. induction l as [|x l IH]; intros pre Hnd; constructor.
  - specialize (IH (pre ++ [x])). rewrite <-(assoc_L (++)) in IH. by apply IH.
  - apply NoDup_app in Hnd as (_ & Hpre & Hxl).
    apply NoDup_cons in Hxl as [Hx _].
    apply Forall_forall. intros b Hb. apply Nat.ltb_ge.
    assert (x ∉ pre) as Hxpre.
    { intros Hin. apply (Hpre _ Hin). left. }
    assert (b ∉ pre) as Hbpre.
    { intros Hin. apply (Hpre _ Hin). by right. }
    rewrite !index_of_app_r by done. simpl.
    rewrite decide_True by done. lia.
Qed.

Lemma sorted_ext {A K} (lt : K → K → bool) (key key' : A → K) (l : list A) :
  (∀ x, key x = key' x) → sorted lt key l = sorted lt key' l.
Proof.
  intros Hkey. induction l as [|x l IH]; [done|].
  change (sorted lt key (x :: l))
    with (sorted_insert lt key x (sorted lt key l)).
  change (sorted lt key' (x :: l))
    with (sorted_insert lt key' x (sorted lt key' l)).
  rewrite IH. generalize (sorted lt key' l). intros k.
  induction k as [|y k IHk]; simpl; [done|].
  by rewrite !Hkey, IHk.
Qed.

(** Sorting the keys by their codes gives them back in insertion order. *)
Lemma sorted_vocab_keys (ks : list pyval) :
  NoDup ks →
  sorted Nat.ltb (λ x, (vocab_getitem (vocab_of ks) x).1) (vocab_of ks).*1
  = ks.
Proof.
  intros Hnd. rewrite vocab_of_keys.
  rewrite (sorted_ext _ _ (λ x, index_of x ks)) by apply vocab_getitem_code.
  apply sorted_id. by apply (index_of_sorted []).
Qed.

Lemma codes_num (keys values : list pyval) :
  (λ c : nat, PInt (Z.of_nat c)) <$> ((λ v, index_of v keys) <$> values)
  = PNum <$> ((λ v, Qc_of_Z (Z.of_nat (index_of v keys))) <$> values).
Proof. by rewrite <-!list_fmap_compose. Qed.

(** The least code in use is 0. *)
Lemma codes_min (values : list pyval) :
  values ≠ [] →
  py_min ((λ c : nat, PInt (Z.of_nat c))
            <$> ((λ v, index_of v (first_seen values)) <$> values))
  = Ok (PInt 0).
Proof.
  intros Hne. rewrite codes_num.
  destruct (py_min_num
              ((λ v, Qc_of_Z (Z.of_nat (index_of v (first_seen values))))
                 <$> values)) as (m & -> & Hin & Hlow).
  { by destruct values. }
  unfold PInt. do 2 f_equal. apply Qcle_antisym.
  - rewrite Forall_forall in Hlow. apply Hlow.
    destruct values as [|v values]; [done|]. simpl.
    rewrite decide_True by done. left.
  - apply list_elem_of_fmap in Hin as (v & -> & _).
    apply (proj1 (Z2Qc_inj_le _ _)). lia.
Qed.

(** The greatest code in use is the number of distinct values less one. *)
Lemma codes_max (values : list pyval) :
  values ≠ [] →
  py_max ((λ c : nat, PInt (Z.of_nat c))
            <$> ((λ v, index_of v (first_seen values)) <$> values))
  = Ok (PInt (Z.of_nat (length (first_seen values)) - 1)).
Proof.
  intros Hne. rewrite codes_num.
  destruct (py_max_num
              ((λ v, Qc_of_Z (Z.of_nat (index_of v (first_seen values))))
                 <$> values)) as (m & -> & Hin & Hup).
  { by destruct values. }
  unfold PInt. do 2 f_equal. apply Qcle_antisym.
  - apply list_elem_of_fmap in Hin as (v & -> & Hv).
    apply elem_of_first_seen in Hv. apply index_of_lt in Hv.
    apply (proj1 (Z2Qc_inj_le _ _)). lia.
  - assert (0 < length (first_seen values)) as Hpos.
    { destruct values; [done|]. simpl. lia. }
    destruct (lookup_lt_is_Some_2 (first_seen values)
                (pred (length (first_seen values)))) as [w Hw]; [lia|].
    rewrite Forall_forall in Hup. apply Hup.
    apply list_elem_of_fmap. exists w. split.
    + rewrite (index_of_NoDup _ _ _ (NoDup_first_seen values) Hw).
      f_equal. lia.
    + apply elem_of_first_seen. by eapply list_elem_of_lookup_2.
Qed.

(** ** The loops of the plot *)

Section PlotFacts.
Context `{MathLib} `{VisUtils}.

(** The inner loop keeps, in trial order, the value of every trial that has
    the parameter. *)
Lemma collect_values_omap (trials : list FrozenTrial) (p_name : string) :
  collect_values trials p_name = omap (λ t, trial_params t !! p_name) trials.
Proof.
  unfold collect_values.
  assert (∀ acc,
    fold_left
      (λ values t,
         match trial_params t !! p_name with
         | Some v => values ++ [v]
         | None => values
         end) trials acc
    = acc ++ omap (λ t, trial_params t !! p_name) trials) as Hgen.
  { induction trials as [|t trials IH]; intros acc; simpl.
    - by rewrite app_nil_r.
    - rewrite IH. destruct (trial_params t !! p_name); [|done].
      by rewrite <-(assoc_L (++)). }
  apply (Hgen []).
Qed.

Lemma elem_of_union_params (trials : list FrozenTrial) (p_name : string) :
  p_name ∈ union_params trials
  ↔ ∃ t, t ∈ trials ∧ is_Some (trial_params t !! p_name).
Proof.
  unfold union_params. rewrite elem_of_union_list. split.
  - intros (X & HX & Hp). apply list_elem_of_fmap in HX as (t & -> & Ht).
    exists t. split; [done|]. by apply elem_of_dom.
  - intros (t & Ht & Hp). exists (dom (trial_params t)). split.
    + apply list_elem_of_fmap. eauto.
    + by apply elem_of_dom.
Qed.

(** A parameter of the union has a value in some trial. *)
Lemma union_params_collect (trials : list FrozenTrial) (p_name : string) :
  p_name ∈ union_params trials ↔ collect_values trials p_name ≠ [].
Proof.
  rewrite elem_of_union_params, collect_values_omap. split.
  - intros (t & Ht & [v Hv]) Hnil.
    assert (v ∈ omap (λ t, trial_params t !! p_name) trials) as Hin.
    { apply list_elem_of_omap. eauto. }
    rewrite Hnil in Hin. by apply elem_of_nil in Hin.
  - intros Hne.
    destruct (omap (λ t, trial_params t !! p_name) trials) as [|v l] eqn:E;
      [done|].
    assert (v ∈ omap (λ t, trial_params t !! p_name) trials) as Hin.
    { rewrite E. left. }
    apply list_elem_of_omap in Hin as (t & Ht & Hv). eauto.
Qed.

Lemma check_params_Ok (all_params : gset string) (params : list string) :
  check_params all_params params = Ok () ↔ Forall (.∈ all_params) params.
Proof.
  induction params as [|p params IH]; simpl.
  - split; [constructor|done].
  - case_bool_decide as Hp.
    + rewrite IH. split; [by constructor|]. by intros [_ ?]%Forall_cons.
    + split; [done|]. by intros [? _]%Forall_cons.
Qed.

(** The validation loop raises for the first name that is not known. *)
Lemma check_params_Raise (all_params : gset string) (params : list string) :
  ¬ Forall (.∈ all_params) params →
  ∃ known q rest,
    params = known ++ q :: rest ∧ Forall (.∈ all_params) known
    ∧ (q ∉ all_params)
    ∧ check_params all_params params = Raise (unknown_parameter q).
Proof.
  induction params as [|p params IH]; intros Hnot.
  - destruct Hnot. constructor.
  - simpl. case_bool_decide as Hp.
    + destruct IH as (known & q & rest & -> & Hknown & Hq & Hraise).
      { intros Hall. apply Hnot. by constructor. }
      exists (p :: known), q, rest. repeat split; [|done|done].
      by constructor.
    + exists [], p, params. repeat split; [constructor|done].
Qed.

(** Every selected parameter occurs in some trial. *)
Lemma select_params_subseteq (trials : list FrozenTrial)
    (params : option (list string)) (sel : gset string) :
  select_params trials params = Ok sel → sel ⊆ union_params trials.
Proof.
  unfold select_params. destruct params as [ps|]; simpl.
  - intros Hsel. apply bind_Ok in Hsel as ([] & Hchk & Hsel).
    inversion Hsel; subst. apply check_params_Ok in Hchk.
    intros p Hp. apply elem_of_list_to_set in Hp.
    rewrite Forall_forall in Hchk. by apply Hchk.
  - intros Hsel. by inversion Hsel.
Qed.

(** The sorted parameter list holds the selected names, each once, in
    strictly increasing order. *)
Lemma sorted_params_spec (trials : list FrozenTrial)
    (params : option (list string)) (names : list string) :
  sorted_params trials params = Ok names →
  ∃ sel, select_params trials params = Ok sel
         ∧ (∀ p, p ∈ names ↔ p ∈ sel)
         ∧ StronglySorted str_lt names
         ∧ length names = size sel.
Proof.
  unfold sorted_params. intros Hs.
  apply bind_Ok in Hs as (sel & Hsel & Hs). inversion Hs; subst.
  exists sel. split; [done|]. split; [|split].
  - intros p. rewrite sorted_perm. apply elem_of_elements.
  - apply sorted_strings, NoDup_elements.
  - by rewrite sorted_length.
Qed.

Lemma sorted_params_collect (trials : list FrozenTrial)
    (params : option (list string)) (names : list string) (p_name : string) :
  sorted_params trials params = Ok names → p_name ∈ names →
  collect_values trials p_name ≠ [].
Proof.
  intros Hs Hp. apply sorted_params_spec in Hs as (sel & Hsel & Hmem & _).
  apply union_params_collect.
  apply (select_params_subseteq _ _ _ Hsel). by apply Hmem.
Qed.

(** The outer loop appends one descriptor per name, in order. *)
Lemma build_dims_Ok (trials : list FrozenTrial) (names : list string)
    (dims0 dims : list Dim) :
  build_dims trials names dims0 = Ok dims
  ↔ ∃ pdims, dims = dims0 ++ pdims
             ∧ Forall2 (λ p d, build_dim trials p = Ok d) names pdims.
Proof.
  revert dims0. induction names as [|p names IH]; intros dims0; simpl.
  - split.
    + intros Hd. inversion Hd; subst. exists []. split; [|constructor].
      by rewrite app_nil_r.
    + intros (pdims & -> & Hall). inversion Hall. by rewrite app_nil_r.
  - split.
    + intros Hd. apply bind_Ok in Hd as (d & Hp & Hd).
      apply IH in Hd as (pdims & -> & Hall).
      exists (d :: pdims). split; [by rewrite <-(assoc_L (++))|].
      by constructor.
    + intros (pdims & -> & Hall).
      inversion Hall as [|? d ? pdims' Hp Hall']; subst.
      rewrite Hp. simpl. apply IH. exists pdims'.
      split; [by rewrite <-(assoc_L (++))|done].
Qed.
End PlotFacts.

(** ** The three kinds of axis *)

Lemma fmap_of_nat_seq (n : nat) :
  PInt <$> py_range 0 (Z.of_nat n)
  = (λ c : nat, PInt (Z.of_nat c)) <$> seq 0 n.
Proof.
  unfold py_range, seqZ. rewrite Z.sub_0_r, Nat2Z.id, <-list_fmap_compose.
  apply list_fmap_ext. intros _ c _. simpl. f_equal. lia.
Qed.

Lemma categorical_dim_spec (p_name : string) (raw : list pyval) :
  raw ≠ [] → categorical_dim p_name raw = Ok (categorical_axis p_name raw).
Proof.
  intros Hne. unfold categorical_dim, categorical_axis.
  rewrite encode_first_seen, codes_min, codes_max by done. simpl.
  rewrite length_vocab_of, fmap_of_nat_seq.
  rewrite sorted_vocab_keys by apply NoDup_first_seen.
  by rewrite <-list_fmap_compose.
Qed.

Lemma categorical_dim_Ok_nonempty (p_name : string) (raw : list pyval)
    (d : Dim) :
  categorical_dim p_name raw = Ok d → raw ≠ [].
Proof. intros Hd ->. discriminate Hd. Qed.

Lemma plain_dim_Ok (p_name : string) (raw : list pyval) (d : Dim) :
  plain_dim p_name raw = Ok d →
  ∃ lo hi, py_min raw = Ok lo ∧ py_max raw = Ok hi
           ∧ d = {| label := dim_label p_name; values := raw;
                    range := (lo, hi); tickvals := None; ticktext := None |}.
Proof.
  unfold plain_dim. intros Hd.
  apply bind_Ok in Hd as (lo & Hlo & Hd).
  apply bind_Ok in Hd as (hi & Hhi & Hd).
  inversion Hd. eauto.
Qed.

(** An integer below the ceiling of [x] is below [x]. *)
Lemma lt_ceiling_lt (k : Z) (x : Qc) :
  (k < Qceiling x)%Z → (Qc_of_Z k < x)%Qc.
Proof.
  intros Hk. unfold Qclt. simpl.
  apply Qle_lt_trans with (inject_Z (Qceiling x - 1)).
  - rewrite <-Zle_Qle. lia.
  - apply Qceiling_lt.
Qed.

(** An integer from the ceiling of [x] on is at least [x]. *)
Lemma ceiling_le_le (k : Z) (x : Qc) :
  (Qceiling x ≤ k)%Z → (x ≤ Qc_of_Z k)%Qc.
Proof.
  intros Hk. unfold Qcle. simpl.
  apply Qle_trans with (inject_Z (Qceiling x)).
  - apply Qle_ceiling.
  - by rewrite <-Zle_Qle.
Qed.

Lemma elem_of_log_int_ticks (lo hi q : Qc) :
  q ∈ log_int_ticks lo hi → (lo ≤ q)%Qc ∧ (q < hi)%Qc.
Proof.
  unfold log_int_ticks, py_range.
  intros (k & -> & Hk)%list_elem_of_fmap. apply elem_of_seqZ in Hk.
  split; [apply ceiling_le_le | apply lt_ceiling_lt]; lia.
Qed.

Lemma max_not_int_tick (lo hi : Qc) : hi ∉ log_int_ticks lo hi.
Proof.
  intros [_ Hlt]%elem_of_log_int_ticks. by apply Qclt_not_eq in Hlt.
Qed.

Lemma extrema_le (qs : list Qc) (lo hi : Qc) :
  extrema qs lo hi → (lo ≤ hi)%Qc.
Proof.
  intros (_ & Hlow & Hhi & _). rewrite Forall_forall in Hlow. by apply Hlow.
Qed.

(** The two membership tests of the log branch, in closed form. *)
Lemma log_ticks_code (lo hi : Qc) :
  let tickvals := PInt <$> py_range (Qceiling lo) (Qceiling hi) in
  let tickvals :=
    if bool_decide (PNum lo ∈ tickvals) then tickvals
    else [PNum lo] ++ tickvals in
  (if bool_decide (PNum hi ∈ tickvals) then tickvals
   else tickvals ++ [PNum hi])
  = PNum <$> log_tickvals lo hi.
Proof.
  cbv zeta.
  assert (PInt <$> py_range (Qceiling lo) (Qceiling hi)
          = PNum <$> log_int_ticks lo hi) as ->.
  { unfold log_int_ticks. by rewrite <-list_fmap_compose. }
  assert (∀ (q : Qc) (l : list Qc), PNum q ∈ PNum <$> l ↔ q ∈ l) as Hmem.
  { intros q l. rewrite list_elem_of_fmap. split.
    - by intros (y & [= ->] & Hy).
    - intros Hq. eauto. }
  pose proof (max_not_int_tick lo hi) as Hhi.
  unfold log_tickvals.
  destruct (decide (lo ∈ log_int_ticks lo hi)) as [Hlo|Hlo].
  - rewrite (bool_decide_eq_true_2 (PNum lo ∈ PNum <$> log_int_ticks lo hi))
      by by apply Hmem.
    rewrite bool_decide_eq_false_2 by by rewrite Hmem.
    rewrite decide_False by (intros ->; done).
    simpl. by rewrite fmap_app.
  - rewrite (bool_decide_eq_false_2 (PNum lo ∈ PNum <$> log_int_ticks lo hi))
      by by rewrite Hmem.
    destruct (decide (hi = lo)) as [->|Hne].
    + rewrite bool_decide_eq_true_2 by left.
      simpl. by rewrite app_nil_r.
    + rewrite bool_decide_eq_false_2.
      * simpl. by rewrite fmap_app.
      * simpl. rewrite elem_of_cons, Hmem. intros [[= ?]|?]; done.
Qed.

Section LogFacts.
Context `{MathLib}.

Lemma mapM_py_log10 (raw vals : list pyval) :
  mapM py_log10 raw = Ok vals
  ↔ ∃ qs, vals = PNum <$> qs ∧ Forall2 log10_of raw qs.
Proof.
  rewrite mapM_Ok_Forall2. split.
  - induction 1 as [|v y raw vals Hvy _ (qs & -> & IH)].
    + exists []. split; [done|constructor].
    + unfold py_log10 in Hvy. destruct v as [x|s]; [|done].
      destruct (log10 x) as [q|] eqn:Hq; [|done]. inversion Hvy; subst.
      exists (q :: qs). split; [done|]. constructor; [|done].
      exists x. done.
  - intros (qs & -> & Hall).
    induction Hall as [|v q raw qs (x & -> & Hq) _ IH]; simpl; constructor.
    + unfold py_log10. by rewrite Hq.
    + done.
Qed.

Lemma mapM_tick_text (l : list Qc) :
  mapM tick_text (PNum <$> l) = Ok ((λ x, PStr (fmt3g (pow10 x))) <$> l).
Proof.
  apply mapM_Ok_Forall2. induction l as [|x l IH]; simpl; by constructor.
Qed.

(** The log branch on raw values whose logarithms are [qs]. *)
Lemma log_dim_spec (p_name : string) (raw : list pyval) (qs : list Qc) :
  Forall2 log10_of raw qs → qs ≠ [] →
  ∃ lo hi, extrema qs lo hi
           ∧ log_dim p_name raw = Ok (log_axis p_name qs lo hi).
Proof.
  intros Hlog Hne.
  destruct (py_min_num qs Hne) as (lo & Hmin & Hlo_in & Hlo).
  destruct (py_max_num qs Hne) as (hi & Hmax & Hhi_in & Hhi).
  exists lo, hi. split; [done|].
  unfold log_dim.
  assert (mapM py_log10 raw = Ok (PNum <$> qs)) as ->.
  { apply mapM_py_log10. eauto. }
  cbn [mbind except_bind]. rewrite Hmin, Hmax.
  cbn [mbind except_bind py_ceil].
  pose proof (log_ticks_code lo hi) as Hticks. cbv zeta in Hticks.
  rewrite Hticks, mapM_tick_text. done.
Qed.

Lemma extrema_unique (qs : list Qc) (lo hi lo' hi' : Qc) :
  extrema qs lo hi → extrema qs lo' hi' → lo = lo' ∧ hi = hi'.
Proof.
  intros (Hl1 & Hl2 & Hh1 & Hh2) (Hl1' & Hl2' & Hh1' & Hh2').
  rewrite Forall_forall in Hl2, Hl2', Hh2, Hh2'.
  split; apply Qcle_antisym; auto.
Qed.

(** Whatever the log branch returns has this shape. *)
Lemma log_dim_Ok (p_name : string) (raw : list pyval) (d : Dim) :
  log_dim p_name raw = Ok d →
  ∃ qs lo hi, Forall2 log10_of raw qs ∧ extrema qs lo hi
              ∧ d = log_axis p_name qs lo hi.
Proof.
  intros Hd. pose proof Hd as Hd'. unfold log_dim in Hd'.
  apply bind_Ok in Hd' as (vals & Hvals & Hd').
  apply mapM_py_log10 in Hvals as (qs & -> & Hlog).
  apply bind_Ok in Hd' as (m & Hm & _).
  assert (qs ≠ []) as Hne.
  { intros ->. discriminate Hm. }
  destruct (log_dim_spec p_name raw qs Hlog Hne) as (lo & hi & Hext & Hspec).
  rewrite Hspec in Hd. inversion Hd. eauto 6.
Qed.
End LogFacts.

(** ** The shape of the figure *)

Section PlotShape.
Context `{MathLib} `{VisUtils}.

(** With a completed trial, the call returns exactly when the parameter
    list is accepted and every axis can be built, and the figure is then
    the target axis followed by those axes. *)
Lemma plot_Ok (study : Study) (params : option (list string))
    (target : option (FrozenTrial → Qc)) (target_name : string)
    (fig : Figure) :
  complete_trials study ≠ [] →
  _get_parallel_coordinate_plot study params target target_name = Ok fig
  ↔ ∃ names lo hi pdims,
      sorted_params (complete_trials study) params = Ok names
      ∧ extrema ((resolve_target study target).1 <$> complete_trials study)
          lo hi
      ∧ Forall2 (λ p d, build_dim (complete_trials study) p = Ok d)
          names pdims
      ∧ fig = parcoords_figure
                (target_axis target_name
                   ((resolve_target study target).1 <$> complete_trials study)
                   lo hi :: pdims)
                target_name (resolve_target study target).2.
Proof.
  intros Hne. unfold _get_parallel_coordinate_plot.
  destruct (complete_trials study) as [|t0 trials0] eqn:Etrials; [done|].
  change (length (t0 :: trials0) =? 0) with false. cbv iota.
  destruct (resolve_target study target) as [tf rs]. cbn [fst snd].
  set (trials := t0 :: trials0) in *.
  assert ((λ t, PNum (tf t)) <$> trials = PNum <$> (tf <$> trials)) as ->.
  { by rewrite <-list_fmap_compose. }
  assert (tf <$> trials ≠ []) as Hvals by done.
  destruct (py_min_num _ Hvals) as (lo & Hmin & Hlo_in & Hlo).
  destruct (py_max_num _ Hvals) as (hi & Hmax & Hhi_in & Hhi).
  rewrite Hmin, Hmax. cbn [mbind except_bind].
  split.
  - intros Hfig. destruct (sorted_params trials params) as [names|e]; [|done].
    cbn [mbind except_bind] in Hfig.
    apply bind_Ok in Hfig as (dims & Hdims & Hfig).
    apply build_dims_Ok in Hdims as (pdims & -> & Hall).
    exists names, lo, hi, pdims. do 3 (split; [done|]).
    by inversion Hfig.
  - intros (names & lo' & hi' & pdims & -> & Hext & Hall & ->).
    destruct (extrema_unique (tf <$> trials) lo hi lo' hi') as [<- <-];
      [done|done|].
    cbn [mbind except_bind].
    assert (build_dims trials names
              [ {| label := target_name; values := PNum <$> (tf <$> trials);
                   range := (PNum lo, PNum hi); tickvals := None;
                   ticktext := None |} ]
            = Ok (target_axis target_name (tf <$> trials) lo hi :: pdims))
      as ->; [|done].
    apply build_dims_Ok. eauto.
Qed.

(** Whatever [build_dim] returns carries the truncated name as its label
    and one value per raw value. *)
Lemma build_dim_Ok (trials : list FrozenTrial) (p_name : string) (d : Dim) :
  build_dim trials p_name = Ok d →
  label d = dim_label p_name
  ∧ length (values d) = length (collect_values trials p_name)
  ∧ collect_values trials p_name ≠ [].
Proof.
  unfold build_dim. intros Hd.
  destruct (_is_log_scale trials p_name).
  - apply log_dim_Ok in Hd as (qs & lo & hi & Hlog & Hext & ->). simpl.
    rewrite length_fmap. split; [done|].
    apply Forall2_length in Hlog. split; [done|].
    destruct Hext as (Hin & _). intros Hnil. rewrite Hnil in Hlog.
    destruct qs; [by apply elem_of_nil in Hin|done].
  - destruct (_is_categorical trials p_name).
    + pose proof (categorical_dim_Ok_nonempty _ _ _ Hd) as Hne.
      rewrite categorical_dim_spec in Hd by done. inversion Hd. simpl.
      by rewrite length_fmap.
    + apply plain_dim_Ok in Hd as (lo & hi & Hlo & _ & ->). simpl.
      repeat split. by eapply py_min_Ok_nonempty.
Qed.
End PlotShape.

Lemma first_seen_app (l1 l2 : list pyval) :
  first_seen (l1 ++ l2)
  = first_seen l1 ++ first_seen (filter (λ v, v ∉ l1) l2).
Proof.
  induction l1 as [|x l1 IH]; simpl.
  - by rewrite filter_not_elem_of_nil.
  - rewrite IH, filter_app. do 2 f_equal.
    rewrite first_seen_filter, list_filter_filter. f_equal.
    apply list_filter_iff. intros w. rewrite elem_of_cons. tauto.
Qed.

(** An occurrence of [v] after the values [pre] is coded by the code [v]
    already has when it was seen among [pre], and by the number of distinct
    values of [pre] (the next free code) when it is new. *)
Lemma first_seen_next_code (pre post : list pyval) (v : pyval) :
  index_of v (first_seen (pre ++ v :: post))
  = if decide (v ∈ pre) then index_of v (first_seen pre)
    else length (first_seen pre).
Proof.
  rewrite first_seen_app. destruct (decide (v ∈ pre)) as [Hin|Hnin].
  - apply index_of_app_l. by apply elem_of_first_seen.
  - rewrite index_of_app_r by by rewrite elem_of_first_seen.
    rewrite filter_cons_True by done. simpl.
    rewrite decide_True by done. lia.
Qed.

Lemma substring_prefix (n : nat) (s : string) :
  n ≤ String.length s →
  ∃ rest, s = String.substring 0 n s +:+ rest
          ∧ String.length (String.substring 0 n s) = n.
Proof.
  revert s. induction n as [|n IH]; intros s Hn.
  - exists s. by destruct s.
  - destruct s as [|c s]; simpl in Hn; [lia|].
    destruct (IH s) as (rest & Hs & Hlen); [lia|].
    exists rest. simpl. split; [exact (f_equal (String c) Hs) | by rewrite Hlen].
Qed.

Section Descriptors.
Context `{MathLib} `{VisUtils}.

(** Without a completed trial the figure has no trace. *)
Lemma plot_no_complete (study : Study) (params : option (list string))
    (target : option (FrozenTrial → Qc)) (target_name : string) :
  complete_trials study = [] →
  _get_parallel_coordinate_plot study params target target_name
  = Ok {| data := []; layout_title := "Parallel Coordinate Plot" |}.
Proof. unfold _get_parallel_coordinate_plot. by intros ->. Qed.

Lemma complete_trials_nil (study : Study) :
  Forall (λ t, trial_state t ≠ COMPLETE) (study_trials study) ↔
  complete_trials study = [].
Proof.
  unfold complete_trials. split.
  - induction 1 as [|t l Ht _ IH]; [done|].
    by rewrite filter_cons_False.
  - induction (study_trials study) as [|t l IH]; [constructor|].
    rewrite filter_cons. destruct (decide (trial_state t = COMPLETE)); [done|].
    intros Hl. constructor; [done|]. by apply IH.
Qed.

(** An accepted name list is empty when there is no trial to draw on. *)
Lemma sorted_params_nil (params : option (list string)) (names : list string) :
  sorted_params [] params = Ok names → names = [].
Proof.
  intros Hs. destruct names as [|p names]; [done|].
  exfalso. eapply (sorted_params_collect [] params (p :: names) p);
    [done|left|done].
Qed.

(** The axis of the [i]-th sorted parameter is descriptor [i + 1]. *)
Lemma plot_descriptor (study : Study) (params : option (list string))
    (target : option (FrozenTrial → Qc)) (target_name : string)
    (fig : Figure) (names : list string) (i : nat) (p_name : string) :
  _get_parallel_coordinate_plot study params target target_name = Ok fig →
  sorted_params (complete_trials study) params = Ok names →
  names !! i = Some p_name →
  ∃ d, descriptors fig !! S i = Some d
       ∧ build_dim (complete_trials study) p_name = Ok d.
Proof.
  intros Hfig Hnames Hi.
  destruct (decide (complete_trials study = [])) as [Hnil|Hne].
  - rewrite Hnil in Hnames. apply sorted_params_nil in Hnames. by subst.
  - apply plot_Ok in Hfig as (names' & lo & hi & pdims & Hn & _ & Hall & ->);
      [|done].
    rewrite Hnames in Hn. inversion Hn; subst names'.
    destruct (Forall2_lookup_l _ _ _ _ _ Hall Hi) as (d & Hd & Hbuild).
    exists d. split; [|done].
    unfold descriptors, parcoords_figure. simpl. by rewrite app_nil_r.
Qed.

(** Every descriptor after the first is the axis of a sorted parameter. *)
Lemma plot_descriptors (study : Study) (params : option (list string))
    (target : option (FrozenTrial → Qc)) (target_name : string)
    (fig : Figure) :
  _get_parallel_coordinate_plot study params target target_name = Ok fig →
  complete_trials study ≠ [] →
  ∃ names lo hi pdims,
    sorted_params (complete_trials study) params = Ok names
    ∧ extrema ((resolve_target study target).1 <$> complete_trials study)
        lo hi
    ∧ Forall2 (λ p d, build_dim (complete_trials study) p = Ok d) names pdims
    ∧ data fig = [ {| dimensions :=
                        target_axis target_name
                          ((resolve_target study target).1
                             <$> complete_trials study) lo hi :: pdims;
                      labelangle := 30;
                      labelside := "bottom";
                      line := {| color :=
                                   PNum <$> ((resolve_target study target).1
                                               <$> complete_trials study);
                                 colorscale := "blues";
                                 colorbar_title := target_name;
                                 showscale := true;
                                 reversescale :=
                                   (resolve_target study target).2 |} |} ]
    ∧ descriptors fig
      = target_axis target_name
          ((resolve_target study target).1 <$> complete_trials study) lo hi
        :: pdims.
Proof.
  intros Hfig Hne.
  apply plot_Ok in Hfig as (names & lo & hi & pdims & Hn & Hext & Hall & ->);
    [|done].
  exists names, lo, hi, pdims. do 4 (split; [done|]).
  unfold descriptors, parcoords_figure. simpl. by rewrite app_nil_r.
Qed.
End Descriptors.

Lemma length_omap_is_Some {A B} (f : A → option B) (l : list A) :
  length (omap f l) = length (filter (λ x, is_Some (f x)) l).
Proof.
  induction l as [|x l IH]; [done|].
  simpl. rewrite filter_cons. destruct (f x) eqn:Ex.
  - rewrite decide_True by done. simpl. f_equal. exact IH.
  - rewrite decide_False by by intros [? ?]. exact IH.
Qed.

(** ** When the call returns *)



Section Returns.
Context `{MathLib} `{VisUtils}.


End Returns.

(** * The claims *)

Section Claims.
Context `{MathLib} `{VisUtils}.

(** C6: when no trial of the study is in the completed state (an empty
    trial list included), the call returns a figure and does not raise, and
    the figure carries no trace, hence an empty descriptor list. *)
Theorem no_complete_trials_empty (study : Study)
    (params : option (list string)) (target : option (FrozenTrial → Qc))
    (target_name : string) :
  Forall (λ t, trial_state t ≠ COMPLETE) (study_trials study) →
  ∃ fig,
    _get_parallel_coordinate_plot study params target target_name = Ok fig
    ∧ data fig = [] ∧ descriptors fig = [].
Proof.
  intros Hnone%complete_trials_nil.
  eexists. split; [by apply plot_no_complete|]. done.
Qed.

(** C10: when no trial is in the completed state, the empty figure is
    returned even if the explicit [params] list names a parameter that no
    trial of the study has.  The validation loop is never reached: run on
    the (empty) list of completed trials it would raise for a name of
    [params]. *)
Theorem empty_check_precedes_validation (study : Study) (ps : list string)
    (target : option (FrozenTrial → Qc)) (target_name : string) :
  Forall (λ t, trial_state t ≠ COMPLETE) (study_trials study) →
  (∃ p, p ∈ ps ∧ ∀ t, t ∈ study_trials study → trial_params t !! p = None) →
  _get_parallel_coordinate_plot study (Some ps) target target_name
  = Ok {| data := []; layout_title := "Parallel Coordinate Plot" |}
  ∧ ∃ q, q ∈ ps
         ∧ select_params (complete_trials study) (Some ps)
           = Raise (unknown_parameter q).
Proof.
  intros Hnone%complete_trials_nil (p & Hp & _).
  split; [by apply plot_no_complete|].
  rewrite Hnone. unfold select_params.
  destruct (check_params_Raise (union_params []) ps)
    as (known & q & rest & -> & _ & _ & ->).
  - intros Hall. rewrite Forall_forall in Hall.
    specialize (Hall p Hp).
    apply elem_of_union_params in Hall as (t & Ht & _).
    by apply elem_of_nil in Ht.
  - exists q. split; [|done]. apply elem_of_app. right. left.
Qed.

(** C4: with an explicit [params] list and at least one completed trial,
    a requested name that no completed trial has makes the call raise the
    [ValueError] whose message names the first such name of the list; the
    call returns no figure. *)
Theorem unknown_parameter_rejected (study : Study) (ps : list string)
    (target : option (FrozenTrial → Qc)) (target_name : string) :
  complete_trials study ≠ [] →
  (∃ p, p ∈ ps ∧ p ∉ union_params (complete_trials study)) →
  ∃ known q rest,
    ps = known ++ q :: rest
    ∧ Forall (.∈ union_params (complete_trials study)) known
    ∧ (q ∉ union_params (complete_trials study))
    ∧ _get_parallel_coordinate_plot study (Some ps) target target_name
      = Raise (ValueError
                 ("Parameter " +:+ q +:+ " does not exist in your study.")).
Proof.
  intros Hne (p & Hp & Hunknown).
  destruct (check_params_Raise (union_params (complete_trials study)) ps)
    as (known & q & rest & Hps & Hknown & Hq & Hraise).
  { intros Hall. rewrite Forall_forall in Hall. by apply Hunknown, Hall. }
  exists known, q, rest. do 3 (split; [done|]).
  unfold _get_parallel_coordinate_plot.
  destruct (complete_trials study) as [|t0 trials0]; [done|].
  change (length (t0 :: trials0) =? 0) with false. cbv iota.
  unfold sorted_params, select_params. rewrite Hraise. done.
Qed.

(** C8: the trace of every returned figure has [reversescale] set exactly
    when a target function was passed, or none was passed and the study
    minimises; and a study with a completed trial gets exactly one trace. *)
Theorem reversescale_flag (study : Study) (params : option (list string))
    (target : option (FrozenTrial → Qc)) (target_name : string)
    (fig : Figure) :
  _get_parallel_coordinate_plot study params target target_name = Ok fig →
  Forall
    (λ trace,
       reversescale (line trace) = true
       ↔ is_Some target
         ∨ (target = None ∧ study_direction study = MINIMIZE))
    (data fig)
  ∧ (complete_trials study ≠ [] → ∃ trace, data fig = [trace]).
Proof.
  intros Hfig.
  destruct (decide (complete_trials study = [])) as [Hnil|Hne].
  - rewrite (plot_no_complete _ _ _ _ Hnil) in Hfig. inversion Hfig. simpl.
    split; [constructor|done].
  - destruct (plot_descriptors _ _ _ _ _ Hfig Hne)
      as (names & lo & hi & pdims & _ & _ & _ & -> & _).
    split; [|eauto]. constructor; [|constructor]. simpl.
    destruct target as [f|]; simpl.
    + split; [eauto|done].
    + rewrite bool_decide_eq_true. split.
      * intros Hmin. right. done.
      * intros [[f Hf]|[_ Hmin]]; done.
Qed.
(** C9: the label of a parameter axis is the parameter name when the name
    has fewer than 20 characters, and otherwise the first 17 characters of
    the name followed by three dots. *)
Theorem axis_label_truncation (study : Study)
    (params : option (list string)) (target : option (FrozenTrial → Qc))
    (target_name : string) (fig : Figure) (names : list string) (i : nat)
    (p_name : string) :
  _get_parallel_coordinate_plot study params target target_name = Ok fig →
  sorted_params (complete_trials study) params = Ok names →
  names !! i = Some p_name →
  ∃ d, descriptors fig !! S i = Some d
       ∧ (String.length p_name < 20 → label d = p_name)
       ∧ (20 ≤ String.length p_name →
          ∃ pre rest, p_name = pre +:+ rest ∧ String.length pre = 17
                      ∧ label d = pre +:+ "...").
Proof.
  intros Hfig Hnames Hi.
  destruct (plot_descriptor _ _ _ _ _ _ _ _ Hfig Hnames Hi)
    as (d & Hd & Hbuild).
  exists d. split; [done|].
  apply build_dim_Ok in Hbuild as (-> & _). unfold dim_label.
  split; intros Hlen.
  - by rewrite (proj2 (Nat.ltb_lt _ _) Hlen).
  - rewrite (proj2 (Nat.ltb_ge _ _) Hlen).
    destruct (substring_prefix 17 p_name) as (rest & Hp & Hpre); [lia|].
    eauto.
Qed.

(** C5: the raw values of a parameter are the values of exactly the
    completed trials that have the parameter, in trial order; its axis has
    one entry per such trial (the raw values themselves on a plain axis),
    while the target axis has one entry per completed trial. *)
Theorem missing_values_skipped (study : Study)
    (params : option (list string)) (target : option (FrozenTrial → Qc))
    (target_name : string) (fig : Figure) :
  _get_parallel_coordinate_plot study params target target_name = Ok fig →
  complete_trials study ≠ [] →
  ∃ names tgt pdims,
    sorted_params (complete_trials study) params = Ok names
    ∧ descriptors fig = tgt :: pdims
    ∧ length (values tgt) = length (complete_trials study)
    ∧ Forall2
        (λ p d,
           collect_values (complete_trials study) p
           = omap (λ t, trial_params t !! p) (complete_trials study)
           ∧ length (values d)
             = length (filter (λ t, is_Some (trial_params t !! p))
                         (complete_trials study))
           ∧ (_is_log_scale (complete_trials study) p = false →
              _is_categorical (complete_trials study) p = false →
              values d
              = omap (λ t, trial_params t !! p) (complete_trials study)))
        names pdims.
Proof.
  intros Hfig Hne.
  destruct (plot_descriptors _ _ _ _ _ Hfig Hne)
    as (names & lo & hi & pdims & Hnames & _ & Hall & _ & Hdesc).
  eexists names, _, pdims. do 2 (split; [done|]).
  split; [simpl; by rewrite !length_fmap|].
  eapply Forall2_impl; [exact Hall|]. intros p d Hbuild. simpl in Hbuild.
  split; [apply collect_values_omap|].
  split.
  - apply build_dim_Ok in Hbuild as (_ & -> & _).
    rewrite collect_values_omap. apply length_omap_is_Some.
  - intros Hlog Hcat. unfold build_dim in Hbuild.
    rewrite Hlog, Hcat in Hbuild.
    apply plain_dim_Ok in Hbuild as (? & ? & _ & _ & ->). simpl.
    apply collect_values_omap.
Qed.

(** C7: on every descriptor of a returned figure that carries ticks, the
    tick texts are as many as the tick positions, and every tick position
    is a number between the two ends of the range of the descriptor, ends
    included. *)
Theorem ticks_within_range (study : Study) (params : option (list string))
    (target : option (FrozenTrial → Qc)) (target_name : string)
    (fig : Figure) (d : Dim) (tv : list pyval) :
  _get_parallel_coordinate_plot study params target target_name = Ok fig →
  d ∈ descriptors fig →
  tickvals d = Some tv →
  ∃ tt lo hi,
    ticktext d = Some tt ∧ length tt = length tv
    ∧ range d = (PNum lo, PNum hi)
    ∧ Forall (λ t, ∃ q, t = PNum q ∧ (lo ≤ q)%Qc ∧ (q ≤ hi)%Qc) tv.
Proof.
  intros Hfig Hd Htv.
  destruct (decide (complete_trials study = [])) as [Hnil|Hne].
  { rewrite (plot_no_complete _ _ _ _ Hnil) in Hfig. inversion Hfig; subst.
    by apply elem_of_nil in Hd. }
  destruct (plot_descriptors _ _ _ _ _ Hfig Hne)
    as (names & lo0 & hi0 & pdims & _ & _ & Hall & _ & Hdesc).
  rewrite Hdesc in Hd. apply elem_of_cons in Hd as [->|Hd]; [done|].
  apply list_elem_of_lookup in Hd as [i Hi].
  destruct (Forall2_lookup_r _ _ _ _ _ Hall Hi) as (p & _ & Hbuild).
  unfold build_dim in Hbuild.
  destruct (_is_log_scale (complete_trials study) p).
  - apply log_dim_Ok in Hbuild as (qs & lo & hi & _ & Hext & ->).
    simpl in Htv. inversion Htv; subst tv.
    eexists _, lo, hi. split; [done|]. split; [by rewrite !length_fmap|].
    split; [done|].
    apply Forall_fmap, Forall_forall. intros q Hq. exists q. split; [done|].
    pose proof (extrema_le _ _ _ Hext) as Hle.
    unfold log_tickvals in Hq. rewrite !elem_of_app in Hq.
    destruct Hq as [Hq|[Hq|Hq]].
    + destruct (decide (lo ∈ log_int_ticks lo hi));
        [by apply elem_of_nil in Hq|].
      apply list_elem_of_singleton in Hq as ->. split; [apply Qcle_refl|done].
    + apply elem_of_log_int_ticks in Hq as [Hlo Hhi].
      split; [done|by apply Qclt_le_weak].
    + destruct (decide (hi = lo)); [by apply elem_of_nil in Hq|].
      apply list_elem_of_singleton in Hq as ->. split; [done|apply Qcle_refl].
  - destruct (_is_categorical (complete_trials study) p).
    + pose proof (categorical_dim_Ok_nonempty _ _ _ Hbuild) as Hraw.
      rewrite categorical_dim_spec in Hbuild by done.
      inversion Hbuild; subst d. simpl in Htv. inversion Htv; subst tv.
      eexists _, _, _. split; [done|].
      split; [by rewrite length_fmap, length_seq|]. split; [done|].
      apply Forall_fmap, Forall_forall. intros c Hc.
      apply elem_of_seq in Hc. eexists. split; [done|].
      split; apply (proj1 (Z2Qc_inj_le _ _)); lia.
    + apply plain_dim_Ok in Hbuild as (? & ? & _ & _ & ->). done.
Qed.

(** C1: the axis of a parameter classified categorical (the log-scale test,
    made first, fails and the categorical test holds).  Its values are the
    raw values each replaced by its code, the code of a value being its
    position among the distinct raw values in first-seen order: an
    occurrence of a value seen before keeps the code of that value, and a
    new value gets the number of distinct values seen so far, starting from
    0.  The range is from 0 to the number of distinct values less one, the
    ticks are the codes from 0 up, and the tick texts are the distinct raw
    values in the order of their codes. *)
Theorem categorical_axis_built (study : Study)
    (params : option (list string)) (target : option (FrozenTrial → Qc))
    (target_name : string) (fig : Figure) (names : list string) (i : nat)
    (p_name : string) :
  _get_parallel_coordinate_plot study params target target_name = Ok fig →
  sorted_params (complete_trials study) params = Ok names →
  names !! i = Some p_name →
  _is_log_scale (complete_trials study) p_name = false →
  _is_categorical (complete_trials study) p_name = true →
  ∃ raw codes vocab,
    raw = omap (λ t, trial_params t !! p_name) (complete_trials study)
    ∧ descriptors fig !! S i
      = Some {| label := dim_label p_name;
                values := (λ c : nat, PInt (Z.of_nat c)) <$> codes;
                range := (PInt 0, PInt (Z.of_nat (length vocab) - 1));
                tickvals :=
                  Some ((λ c : nat, PInt (Z.of_nat c))
                          <$> seq 0 (length vocab));
                ticktext := Some vocab |}
    ∧ NoDup vocab
    ∧ (∀ v, v ∈ vocab ↔ v ∈ raw)
    ∧ Forall2 (λ v c, vocab !! c = Some v) raw codes
    ∧ (∀ pre v post, raw = pre ++ v :: post →
         codes !! length pre
         = Some (if decide (v ∈ pre) then index_of v (first_seen pre)
                 else length (first_seen pre))).
Proof.
  intros Hfig Hnames Hi Hlog Hcat.
  destruct (plot_descriptor _ _ _ _ _ _ _ _ Hfig Hnames Hi)
    as (d & Hd & Hbuild).
  unfold build_dim in Hbuild. rewrite Hlog, Hcat in Hbuild.
  pose proof (categorical_dim_Ok_nonempty _ _ _ Hbuild) as Hraw.
  rewrite categorical_dim_spec in Hbuild by done.
  inversion Hbuild; subst d. clear Hbuild.
  rewrite collect_values_omap in *.
  set (raw := omap (λ t, trial_params t !! p_name) (complete_trials study))
    in *.
  exists raw, ((λ v, index_of v (first_seen raw)) <$> raw), (first_seen raw).
  split; [done|]. split.
  { rewrite Hd. unfold categorical_axis. by rewrite <-list_fmap_compose. }
  split; [apply NoDup_first_seen|].
  split; [intros v; apply elem_of_first_seen|].
  split.
  - apply Forall2_fmap_r, Forall_Forall2_diag, Forall_forall.
    intros v Hv. apply index_of_lookup. by apply elem_of_first_seen.
  - intros pre v post Hsplit. rewrite list_lookup_fmap, Hsplit.
    rewrite list_lookup_middle by done. simpl.
    by rewrite first_seen_next_code.
Qed.

(** C2, as the code has it: the axis of a log-scaled parameter.  Its
    values are the base-10 logarithms of the raw values in trial order and
    its range is their least and greatest, [lo] and [hi].  The ticks are
    the integers [range(ceil(lo), ceil(hi))] with [lo] put in front unless
    it is one of them, and [hi] put at the end unless it equals [lo]: the
    test for [hi] is made on the ticks that already hold [lo], and [hi] is
    never one of the integers.  The tick texts are the [.3g] format of 10
    to the power of each tick. *)
Theorem log_axis_built (study : Study) (params : option (list string))
    (target : option (FrozenTrial → Qc)) (target_name : string)
    (fig : Figure) (names : list string) (i : nat) (p_name : string) :
  _get_parallel_coordinate_plot study params target target_name = Ok fig →
  sorted_params (complete_trials study) params = Ok names →
  names !! i = Some p_name →
  _is_log_scale (complete_trials study) p_name = true →
  ∃ qs lo hi,
    Forall2 log10_of
      (omap (λ t, trial_params t !! p_name) (complete_trials study)) qs
    ∧ extrema qs lo hi
    ∧ descriptors fig !! S i
      = Some {| label := dim_label p_name;
                values := PNum <$> qs;
                range := (PNum lo, PNum hi);
                tickvals := Some (PNum <$> log_tickvals lo hi);
                ticktext :=
                  Some ((λ x, PStr (fmt3g (pow10 x)))
                          <$> log_tickvals lo hi) |}
    ∧ (hi ∉ log_int_ticks lo hi).
Proof.
  intros Hfig Hnames Hi Hlog.
  destruct (plot_descriptor _ _ _ _ _ _ _ _ Hfig Hnames Hi)
    as (d & Hd & Hbuild).
  unfold build_dim in Hbuild. rewrite Hlog in Hbuild.
  apply log_dim_Ok in Hbuild as (qs & lo & hi & Hqs & Hext & ->).
  rewrite collect_values_omap in Hqs.
  exists qs, lo, hi. do 3 (split; [done|]). apply max_not_int_tick.
Qed.
End Claims.

(** * The claims on the worked inputs *)

(** The plot of the worked study, end to end. *)
Example ex_plot_study :
  ex_plot ex_study None no_target "Objective Value" = Ok ex_figure.
Proof. vm_compute. reflexivity. Qed.

Example ex_sorted_params :
  sorted_params (complete_trials ex_study) None = Ok ["x"; "y"; "z"].
Proof. vm_compute. reflexivity. Qed.

(** A string where a logarithm is due makes the call raise. *)
Example ex_plot_type_error :
  ex_plot
    {| study_trials := [ ex_trial COMPLETE [("x", PStr "a")] 5 ];
       study_direction := MINIMIZE |}
    None no_target "Objective Value"
  = Raise TypeError.
Proof. vm_compute. reflexivity. Qed.

(** The example of the specification: the values [a, b, a, c] get the codes
    [0, 1, 0, 2] and leave the vocabulary [a: 0, b: 1, c: 2]. *)
Example encode_abac :
  encode [] [PStr "a"; PStr "b"; PStr "a"; PStr "c"]
  = ([0; 1; 0; 2], [(PStr "a", 0); (PStr "b", 1); (PStr "c", 2)]).
Proof. vm_compute. reflexivity. Qed.

Lemma no_complete_trials_empty_witness :
  ∃ fig,
    ex_plot ex_no_complete None no_target "Objective Value" = Ok fig
    ∧ data fig = [] ∧ descriptors fig = [].
Proof.
  apply (@no_complete_trials_empty table_math xy_utils).
  repeat constructor; discriminate.
Defined.

Lemma empty_check_precedes_validation_witness :
  ex_plot ex_no_complete (Some ["nonexistent"]) no_target "Objective Value"
  = Ok {| data := []; layout_title := "Parallel Coordinate Plot" |}
  ∧ ∃ q, q ∈ ["nonexistent"]
         ∧ select_params (complete_trials ex_no_complete)
             (Some ["nonexistent"])
           = Raise (unknown_parameter q).
Proof.
  apply (@empty_check_precedes_validation table_math xy_utils).
  - repeat constructor; discriminate.
  - exists "nonexistent". split; [left|].
    intros t Ht. vm_compute in Ht.
    repeat (apply elem_of_cons in Ht as [->|Ht]; [vm_compute; reflexivity|]).
    by apply elem_of_nil in Ht.
Defined.

Lemma unknown_parameter_rejected_witness :
  ∃ known q rest,
    ["x"; "w"; "nope"] = known ++ q :: rest
    ∧ Forall (.∈ union_params (complete_trials ex_study)) known
    ∧ (q ∉ union_params (complete_trials ex_study))
    ∧ ex_plot ex_study (Some ["x"; "w"; "nope"]) no_target "Objective Value"
      = Raise (ValueError
                 ("Parameter " +:+ q +:+ " does not exist in your study.")).
Proof.
  apply (@unknown_parameter_rejected table_math xy_utils).
  - vm_compute. discriminate.
  - exists "w". split; [right; left|].
    apply (bool_decide_unpack _). vm_compute. exact I.
Defined.

Lemma reversescale_flag_witness :
  Forall
    (λ trace,
       reversescale (line trace) = true
       ↔ is_Some no_target
         ∨ (no_target = None ∧ study_direction ex_study = MINIMIZE))
    (data ex_figure)
  ∧ (complete_trials ex_study ≠ [] → ∃ trace, data ex_figure = [trace]).
Proof.
  apply (@reversescale_flag table_math xy_utils ex_study None no_target
           "Objective Value" ex_figure).
  vm_compute. reflexivity.
Defined.

Lemma axis_label_truncation_witness :
  ∃ d, descriptors ex_long_figure !! 2 = Some d
       ∧ (String.length ex_long_name < 20 → label d = ex_long_name)
       ∧ (20 ≤ String.length ex_long_name →
          ∃ pre rest, ex_long_name = pre +:+ rest ∧ String.length pre = 17
                      ∧ label d = pre +:+ "...").
Proof.
  apply (@axis_label_truncation table_math xy_utils ex_long_study None
           no_target "Objective Value" ex_long_figure
           ["short"; ex_long_name] 1 ex_long_name).
  - vm_compute. reflexivity.
  - vm_compute. reflexivity.
  - reflexivity.
Defined.

Lemma missing_values_skipped_witness :
  ∃ names tgt pdims,
    sorted_params (complete_trials ex_study) None = Ok names
    ∧ descriptors ex_figure = tgt :: pdims
    ∧ length (values tgt) = length (complete_trials ex_study)
    ∧ Forall2
        (λ p d,
           collect_values (complete_trials ex_study) p
           = omap (λ t, trial_params t !! p) (complete_trials ex_study)
           ∧ length (values d)
             = length (filter (λ t, is_Some (trial_params t !! p))
                         (complete_trials ex_study))
           ∧ (@_is_log_scale xy_utils (complete_trials ex_study) p = false →
              @_is_categorical xy_utils (complete_trials ex_study) p = false →
              values d
              = omap (λ t, trial_params t !! p) (complete_trials ex_study)))
        names pdims.
Proof.
  apply (@missing_values_skipped table_math xy_utils ex_study None no_target
           "Objective Value" ex_figure).
  - vm_compute. reflexivity.
  - vm_compute. discriminate.
Defined.


Lemma ticks_within_range_witness :
  ∃ tt lo hi,
    Some [PStr "1"; PStr "10"; PStr "100"] = Some tt
    ∧ length tt = length [PInt 0; PInt 1; PInt 2]
    ∧ (PInt 0, PInt 2) = (PNum lo, PNum hi)
    ∧ Forall (λ t, ∃ q, t = PNum q ∧ (lo ≤ q)%Qc ∧ (q ≤ hi)%Qc)
        [PInt 0; PInt 1; PInt 2].
Proof.
  apply (@ticks_within_range table_math xy_utils ex_study None no_target
           "Objective Value" ex_figure
           {| label := "x";
              values := [PInt 0; PInt 1; PInt 2; PInt 1];
              range := (PInt 0, PInt 2);
              tickvals := Some [PInt 0; PInt 1; PInt 2];
              ticktext := Some [PStr "1"; PStr "10"; PStr "100"] |}).
  - vm_compute. reflexivity.
  - right. left.
  - reflexivity.
Defined.

Lemma categorical_axis_built_witness :
  ∃ raw codes vocab,
    raw = omap (λ t, trial_params t !! "y") (complete_trials ex_study)
    ∧ descriptors ex_figure !! 2
      = Some {| label := dim_label "y";
                values := (λ c : nat, PInt (Z.of_nat c)) <$> codes;
                range := (PInt 0, PInt (Z.of_nat (length vocab) - 1));
                tickvals :=
                  Some ((λ c : nat, PInt (Z.of_nat c))
                          <$> seq 0 (length vocab));
                ticktext := Some vocab |}
    ∧ NoDup vocab
    ∧ (∀ v, v ∈ vocab ↔ v ∈ raw)
    ∧ Forall2 (λ v c, vocab !! c = Some v) raw codes
    ∧ (∀ pre v post, raw = pre ++ v :: post →
         codes !! length pre
         = Some (if decide (v ∈ pre) then index_of v (first_seen pre)
                 else length (first_seen pre))).
Proof.
  apply (@categorical_axis_built table_math xy_utils ex_study None no_target
           "Objective Value" ex_figure ["x"; "y"; "z"] 1 "y").
  - vm_compute. reflexivity.
  - vm_compute. reflexivity.
  - reflexivity.
  - reflexivity.
  - reflexivity.
Defined.

Lemma log_axis_built_witness :
  ∃ qs lo hi,
    Forall2 (@log10_of table_math)
      (omap (λ t, trial_params t !! "x") (complete_trials ex_study)) qs
    ∧ extrema qs lo hi
    ∧ descriptors ex_figure !! 1
      = Some {| label := dim_label "x";
                values := PNum <$> qs;
                range := (PNum lo, PNum hi);
                tickvals := Some (PNum <$> log_tickvals lo hi);
                ticktext :=
                  Some ((λ x, PStr (table_fmt3g (table_pow10 x)))
                          <$> log_tickvals lo hi) |}
    ∧ (hi ∉ log_int_ticks lo hi).
Proof.
  apply (@log_axis_built table_math xy_utils ex_study None no_target
           "Objective Value" ex_figure ["x"; "y"; "z"] 0 "x").
  - vm_compute. reflexivity.
  - vm_compute. reflexivity.
  - reflexivity.
  - reflexivity.
Defined.

(** C2, as worded, fails on a study with one completed trial whose
    log-scaled parameter is 1: the logarithm 0 is both extremum, there is
    no integer in [range(0, 0)], and the axis has the one tick 0, where the
    wording (append the greatest value unless it is one of the integers)
    gives the tick twice. *)
Lemma worded_log_ticks_counterexample :
  ∃ fig d,
    ex_plot ex_single None no_target "Objective Value" = Ok fig
    ∧ descriptors fig !! 1 = Some d
    ∧ values d = [PInt 0]
    ∧ range d = (PInt 0, PInt 0)
    ∧ tickvals d = Some [PInt 0]
    ∧ PNum <$> worded_log_tickvals (Qc_of_Z 0) (Qc_of_Z 0)
      = [PInt 0; PInt 0]
    ∧ tickvals d
      ≠ Some (PNum <$> worded_log_tickvals (Qc_of_Z 0) (Qc_of_Z 0)).
Proof.
  eexists _, _. split; [vm_compute; reflexivity|].
  split; [reflexivity|].
  do 3 (split; [reflexivity|]).
  split; [vm_compute; reflexivity|].
  vm_compute. discriminate.
Qed.

(** * Further properties of the plot *)

(** ** The call as a composition of its loops *)

Section Unfold.
Context `{MathLib} `{VisUtils}.

(** With a completed trial, the call is the validation, then the loop over
    the sorted names started from the target axis, then the figure. *)
Lemma plot_unfold (study : Study) (params : option (list string))
    (target : option (FrozenTrial → Qc)) (target_name : string) :
  complete_trials study ≠ [] →
  ∃ lo hi,
    extrema ((resolve_target study target).1 <$> complete_trials study) lo hi
    ∧ _get_parallel_coordinate_plot study params target target_name
      = (names ← sorted_params (complete_trials study) params;
         dims ← build_dims (complete_trials study) names
                  [ target_axis target_name
                      ((resolve_target study target).1
                         <$> complete_trials study) lo hi ];
         Ok (parcoords_figure dims target_name
               (resolve_target study target).2)).
Proof.
  intros Hne. unfold _get_parallel_coordinate_plot.
  destruct (complete_trials study) as [|t0 trials0] eqn:Etrials; [done|].
  change (length (t0 :: trials0) =? 0) with false. cbv iota.
  destruct (resolve_target study target) as [tf rs]. cbn [fst snd].
  set (trials := t0 :: trials0) in *.
  assert ((λ t, PNum (tf t)) <$> trials = PNum <$> (tf <$> trials)) as ->.
  { by rewrite <-list_fmap_compose. }
  assert (tf <$> trials ≠ []) as Hvals by done.
  destruct (py_min_num _ Hvals) as (lo & Hmin & Hlo).
  destruct (py_max_num _ Hvals) as (hi & Hmax & Hhi).
  exists lo, hi. split; [by destruct Hlo, Hhi|].
  destruct (sorted_params trials params) as [names|e]; [|done].
  cbn [mbind except_bind]. rewrite Hmin, Hmax. done.
Qed.

(** The call depends on [params] through the sorted name list only. *)
Lemma plot_params_ext (study : Study) (params params' : option (list string))
    (target : option (FrozenTrial → Qc)) (target_name : string) :
  sorted_params (complete_trials study) params
  = sorted_params (complete_trials study) params' →
  _get_parallel_coordinate_plot study params target target_name
  = _get_parallel_coordinate_plot study params' target target_name.
Proof.
  intros Hsame. unfold _get_parallel_coordinate_plot. cbv zeta.
  by rewrite Hsame.
Qed.

Lemma sorted_params_Some (trials : list FrozenTrial) (ps : list string) :
  Forall (.∈ union_params trials) ps →
  sorted_params trials (Some ps)
  = Ok (sorted String.ltb id (elements (list_to_set ps : gset string))).
Proof.
  intros Hknown. unfold sorted_params, select_params.
  by rewrite (proj2 (check_params_Ok _ _) Hknown).
Qed.

(** The loop over the names stops at the first axis that cannot be built. *)
Lemma build_dims_Raise (trials : list FrozenTrial) (pre rest : list string)
    (p_name : string) (dims0 : list Dim) (e : exn) :
  Forall (λ q, ∃ d, build_dim trials q = Ok d) pre →
  build_dim trials p_name = Raise e →
  build_dims trials (pre ++ p_name :: rest) dims0 = Raise e.
Proof.
  intros Hpre Hp. revert dims0.
  induction Hpre as [|q pre [d Hq] _ IH]; intros dims0; simpl.
  - by rewrite Hp.
  - rewrite Hq. simpl. apply IH.
Qed.

End Unfold.

(** ** What can be raised *)





(** [min] meets a string after numbers, or a number after strings. *)
Lemma min_loop_mixed (cur : pyval) (rest : list pyval) :
  (∃ v, v ∈ rest
        ∧ match cur, v with
          | PNum _, PStr _ | PStr _, PNum _ => True
          | _, _ => False
          end) →
  min_max_loop py_lt cur rest = Raise TypeError.
Proof.
  revert cur. induction rest as [|item rest IH]; intros cur (v & Hv & Hkind).
  - by apply elem_of_nil in Hv.
  - simpl. destruct cur as [x|s], item as [y|t]; simpl; try done.
    + apply IH. apply elem_of_cons in Hv as [->|Hv]; [destruct Hkind|].
      exists v. split; [done|]. destruct v; [done|]. by case_bool_decide.
    + apply IH. apply elem_of_cons in Hv as [->|Hv]; [destruct Hkind|].
      exists v. split; [done|]. destruct v; [|done].
      by destruct (String.ltb t s).
Qed.

Lemma py_min_mixed (l : list pyval) (x : Qc) (s : string) :
  PNum x ∈ l → PStr s ∈ l → py_min l = Raise TypeError.
Proof.
  destruct l as [|first rest]; [by intros ?%elem_of_nil|].
  intros Hx Hs. simpl. apply min_loop_mixed. destruct first as [y|t].
  - apply elem_of_cons in Hs as [?|Hs]; [done|]. by exists (PStr s).
  - apply elem_of_cons in Hx as [?|Hx]; [done|]. by exists (PNum x).
Qed.

Section Raised.
Context `{MathLib} `{VisUtils}.

(** The comprehension of logarithms raises at the first raw value that has
    none: a [TypeError] for a string, the domain error for a number. *)
Lemma mapM_py_log10_Raise (pre post : list pyval) (v : pyval) :
  Forall (λ w, ∃ y, log10_of w y) pre →
  (¬ ∃ y, log10_of v y) →
  mapM py_log10 (pre ++ v :: post)
  = Raise (match v with
           | PNum _ => ValueError "math domain error"
           | PStr _ => TypeError
           end).
Proof.
  intros Hpre Hv. induction Hpre as [|w pre (y & x & -> & Hx) _ IH]; simpl.
  - destruct v as [x|s]; simpl; [|done].
    destruct (log10 x) as [y|] eqn:Hx; [|done].
    destruct Hv. exists y, x. done.
  - rewrite Hx. simpl. by rewrite IH.
Qed.


End Raised.

(** ** The order of the ticks *)

Lemma sorted_fmap_seq (f : nat → Qc) (a n : nat) :
  (∀ i j, i < j → (f i < f j)%Qc) →
  StronglySorted Qclt (f <$> seq a n).
Proof.
  intros Hmono. revert a. induction n as [|n IH]; intros a; simpl.
  - constructor.
  - constructor; [apply IH|].
    apply Forall_fmap, Forall_forall. intros j Hj.
    apply elem_of_seq in Hj. apply Hmono. lia.
Qed.

Lemma log_int_ticks_seq (lo hi : Qc) :
  log_int_ticks lo hi
  = (λ i : nat, Qc_of_Z (Z.of_nat i + Qceiling lo))
      <$> seq 0 (Z.to_nat (Qceiling hi - Qceiling lo)).
Proof.
  unfold log_int_ticks, py_range, seqZ. by rewrite <-list_fmap_compose.
Qed.

Lemma log_int_ticks_sorted (lo hi : Qc) :
  StronglySorted Qclt (log_int_ticks lo hi).
Proof.
  rewrite log_int_ticks_seq. apply sorted_fmap_seq.
  intros i j Hij. apply (proj1 (Z2Qc_inj_lt _ _)). lia.
Qed.

(** A least value that is one of the integer ticks is the first of them. *)
Lemma log_int_ticks_head (lo hi : Qc) :
  lo ∈ log_int_ticks lo hi → head (log_int_ticks lo hi) = Some lo.
Proof.
  intros Hin. pose proof Hin as Hin'.
  unfold log_int_ticks, py_range in Hin'.
  apply list_elem_of_fmap in Hin' as (k & Hk & Hrange).
  apply elem_of_seqZ in Hrange.
  assert (Qceiling lo = k) as Hceil.
  { rewrite Hk. simpl. apply Qceiling_Z. }
  rewrite log_int_ticks_seq.
  destruct (Z.to_nat (Qceiling hi - Qceiling lo)) as [|n] eqn:En; [lia|].
  simpl. f_equal. rewrite Hk at 2. f_equal. lia.
Qed.

Lemma log_int_ticks_diag (lo : Qc) : log_int_ticks lo lo = [].
Proof.
  unfold log_int_ticks, py_range. by rewrite Z.sub_diag.
Qed.

(** The ticks of a log axis increase strictly from the least to the
    greatest value. *)
Lemma log_tickvals_sorted (lo hi : Qc) :
  (lo ≤ hi)%Qc →
  StronglySorted Qclt (log_tickvals lo hi)
  ∧ head (log_tickvals lo hi) = Some lo
  ∧ last (log_tickvals lo hi) = Some hi.
Proof.
  intros Hle. unfold log_tickvals.
  destruct (decide (hi = lo)) as [->|Hne].
  - rewrite log_int_ticks_diag.
    rewrite decide_False by apply not_elem_of_nil. simpl.
    split; [repeat constructor|done].
  - assert (lo < hi)%Qc as Hlt.
    { apply Qcle_lt_or_eq in Hle as [?|?]; [done|congruence]. }
    split; [|split].
    + apply StronglySorted_app_2.
      * intros a b Ha Hb. apply elem_of_app in Hb as [Hb|Hb].
        -- destruct (decide (lo ∈ log_int_ticks lo hi)) as [?|Hnin];
             [by apply elem_of_nil in Ha|].
           apply list_elem_of_singleton in Ha as ->.
           apply elem_of_log_int_ticks in Hb as Hb'. destruct Hb' as [Hlo _].
           apply Qcle_lt_or_eq in Hlo as [?|Heq]; [done|].
           subst b. done.
        -- apply list_elem_of_singleton in Hb as ->.
           destruct (decide (lo ∈ log_int_ticks lo hi));
             [by apply elem_of_nil in Ha|].
           by apply list_elem_of_singleton in Ha as ->.
      * destruct (decide (lo ∈ log_int_ticks lo hi)); repeat constructor.
      * apply StronglySorted_app_2.
        -- intros a b Ha Hb. apply list_elem_of_singleton in Hb as ->.
           by apply elem_of_log_int_ticks in Ha as [_ ?].
        -- apply log_int_ticks_sorted.
        -- repeat constructor.
    + destruct (decide (lo ∈ log_int_ticks lo hi)) as [Hin|Hnin]; [|done].
      simpl. apply log_int_ticks_head in Hin.
      destruct (log_int_ticks lo hi); [done|]. done.
    + rewrite !(assoc_L (++)). apply last_snoc.
Qed.

(** The ticks of a categorical axis with [n] codes. *)
Lemma code_ticks_sorted (n : nat) :
  0 < n →
  StronglySorted Qclt ((λ c : nat, Qc_of_Z (Z.of_nat c)) <$> seq 0 n)
  ∧ head ((λ c : nat, Qc_of_Z (Z.of_nat c)) <$> seq 0 n)
    = Some (Qc_of_Z 0)
  ∧ last ((λ c : nat, Qc_of_Z (Z.of_nat c)) <$> seq 0 n)
    = Some (Qc_of_Z (Z.of_nat n - 1)).
Proof.
  intros Hn. split; [|split].
  - apply sorted_fmap_seq. intros i j Hij.
    apply (proj1 (Z2Qc_inj_lt _ _)). lia.
  - by destruct n; [lia|].
  - destruct n as [|n]; [lia|].
    rewrite seq_S, fmap_app. simpl. rewrite last_snoc.
    do 2 f_equal. lia.
Qed.

Lemma length_first_seen (l : list pyval) : length (first_seen l) ≤ length l.
Proof.
  induction l as [|v l IH]; simpl; [done|].
  pose proof (length_filter (λ w, w ≠ v) (first_seen l)). lia.
Qed.

Lemma string_length_app (s t : string) :
  String.length (s +:+ t) = String.length s + String.length t.
Proof. induction s as [|c s IH]; simpl; [done|]. by rewrite IH. Qed.

(** The range a numeric extremum pair gives is fixed by the values. *)
Lemma py_min_max_extrema (qs : list Qc) (lo hi : pyval) :
  py_min (PNum <$> qs) = Ok lo → py_max (PNum <$> qs) = Ok hi →
  ∃ l h, lo = PNum l ∧ hi = PNum h ∧ extrema qs l h.
Proof.
  intros Hmin Hmax.
  assert (qs ≠ []) as Hne by (intros ->; discriminate Hmin).
  destruct (py_min_num qs Hne) as (l & Hl & Hlo).
  destruct (py_max_num qs Hne) as (h & Hh & Hhi).
  exists l, h. split; [congruence|]. split; [congruence|].
  by destruct Hlo, Hhi.
Qed.

(** ** Descriptors and where they come from *)

Lemma PNum_fmap_inj (a b : list Qc) : PNum <$> a = PNum <$> b → a = b.
Proof.
  revert b. induction a as [|x a IH]; intros [|y b]; simpl; try done.
  intros [= -> Hab]. f_equal. by apply IH.
Qed.

Lemma dim_label_length (p_name : string) :
  String.length (dim_label p_name) ≤ 20.
Proof.
  unfold dim_label. destruct (String.length p_name <? 20) eqn:Hlen.
  - apply Nat.ltb_lt in Hlen. lia.
  - apply Nat.ltb_ge in Hlen.
    destruct (substring_prefix 17 p_name) as (rest & _ & Hpre); [lia|].
    rewrite string_length_app, Hpre. simpl. lia.
Qed.

Lemma vocab_get_snoc (vocab : list (pyval * nat)) (v w : pyval) (n : nat) :
  vocab_get (vocab ++ [(v, n)]) w
  = match vocab_get vocab w with
    | Some c => Some c
    | None => if decide (v = w) then Some n else None
    end.
Proof.
  induction vocab as [|[k c] vocab IH]; simpl; [done|].
  by destruct (decide (k = w)).
Qed.

Section DescriptorFacts.
Context `{MathLib} `{VisUtils}.

(** A descriptor of a returned figure is the target axis or the axis built
    for a selected parameter. *)
Lemma plot_descriptor_inv (study : Study) (params : option (list string))
    (target : option (FrozenTrial → Qc)) (target_name : string)
    (fig : Figure) (d : Dim) :
  _get_parallel_coordinate_plot study params target target_name = Ok fig →
  d ∈ descriptors fig →
  (∃ lo hi,
     extrema ((resolve_target study target).1 <$> complete_trials study)
       lo hi
     ∧ d = target_axis target_name
             ((resolve_target study target).1 <$> complete_trials study)
             lo hi)
  ∨ (∃ names p_name,
       sorted_params (complete_trials study) params = Ok names
       ∧ p_name ∈ names
       ∧ build_dim (complete_trials study) p_name = Ok d).
Proof.
  intros Hfig Hd.
  destruct (decide (complete_trials study = [])) as [Hnil|Hne].
  { rewrite (plot_no_complete _ _ _ _ Hnil) in Hfig. inversion Hfig; subst.
    by apply elem_of_nil in Hd. }
  destruct (plot_descriptors _ _ _ _ _ Hfig Hne)
    as (names & lo & hi & pdims & Hnames & Hext & Hall & _ & Hdesc).
  rewrite Hdesc in Hd. apply elem_of_cons in Hd as [->|Hd]; [left; eauto|].
  right. apply list_elem_of_lookup in Hd as [i Hi].
  destruct (Forall2_lookup_r _ _ _ _ _ Hall Hi) as (p & Hp & Hbuild).
  exists names, p. split; [done|]. split; [|done].
  by eapply list_elem_of_lookup_2.
Qed.

(** The range of an axis is [min] and [max] of the values it carries. *)
Lemma build_dim_range (trials : list FrozenTrial) (p_name : string)
    (d : Dim) :
  build_dim trials p_name = Ok d →
  py_min (values d) = Ok (range d).1 ∧ py_max (values d) = Ok (range d).2.
Proof.
  unfold build_dim. intros Hd.
  destruct (_is_log_scale trials p_name).
  - apply log_dim_Ok in Hd as (qs & lo & hi & _ & Hext & ->). simpl.
    assert (qs ≠ []) as Hne.
    { destruct Hext as (Hin & _). intros ->. by apply elem_of_nil in Hin. }
    destruct (py_min_num qs Hne) as (l & Hl & Hlo).
    destruct (py_max_num qs Hne) as (h & Hh & Hhi).
    destruct (extrema_unique qs lo hi l h) as [-> ->];
      [done|by destruct Hlo, Hhi|done].
  - destruct (_is_categorical trials p_name).
    + pose proof (categorical_dim_Ok_nonempty _ _ _ Hd) as Hne.
      rewrite categorical_dim_spec in Hd by done. injection Hd as <-.
      pose proof (codes_min _ Hne) as Hmin.
      pose proof (codes_max _ Hne) as Hmax.
      rewrite <-list_fmap_compose in Hmin, Hmax.
      split; [exact Hmin|exact Hmax].
    + by apply plain_dim_Ok in Hd as (lo & hi & Hlo & Hhi & ->).
Qed.
End DescriptorFacts.

(** ** Properties of the whole call *)

Section Extras.
Context `{MathLib} `{VisUtils}.

(** X1: the axis of a parameter that is neither log-scaled nor categorical
    carries the raw values unchanged, has [min] and [max] of them as its
    range (their least and greatest when they are numbers) and no ticks. *)
Theorem plain_axis_built (study : Study) (params : option (list string))
    (target : option (FrozenTrial → Qc)) (target_name : string)
    (fig : Figure) (names : list string) (i : nat) (p_name : string) :
  _get_parallel_coordinate_plot study params target target_name = Ok fig →
  sorted_params (complete_trials study) params = Ok names →
  names !! i = Some p_name →
  _is_log_scale (complete_trials study) p_name = false →
  _is_categorical (complete_trials study) p_name = false →
  ∃ raw lo hi,
    raw = omap (λ t, trial_params t !! p_name) (complete_trials study)
    ∧ py_min raw = Ok lo ∧ py_max raw = Ok hi
    ∧ descriptors fig !! S i
      = Some {| label := dim_label p_name; values := raw; range := (lo, hi);
                tickvals := None; ticktext := None |}
    ∧ (∀ qs, raw = PNum <$> qs →
         ∃ l h, lo = PNum l ∧ hi = PNum h ∧ extrema qs l h).
Proof.
  intros Hfig Hnames Hi Hlog Hcat.
  destruct (plot_descriptor _ _ _ _ _ _ _ _ Hfig Hnames Hi)
    as (d & Hd & Hbuild).
  unfold build_dim in Hbuild. rewrite Hlog, Hcat in Hbuild.
  apply plain_dim_Ok in Hbuild as (lo & hi & Hlo & Hhi & ->).
  rewrite collect_values_omap in *.
  eexists _, lo, hi. do 4 (split; [done|]).
  intros qs Hqs. rewrite Hqs in Hlo, Hhi. by apply py_min_max_extrema.
Qed.

(** X2: an explicit parameter list counts as a set: two lists of known
    names with the same elements, in any order and with any repetitions,
    give the same result. *)
Theorem params_order_irrelevant (study : Study) (ps ps' : list string)
    (target : option (FrozenTrial → Qc)) (target_name : string) :
  (∀ p, p ∈ ps ↔ p ∈ ps') →
  Forall (.∈ union_params (complete_trials study)) ps →
  _get_parallel_coordinate_plot study (Some ps) target target_name
  = _get_parallel_coordinate_plot study (Some ps') target target_name.
Proof.
  intros Hsame Hknown. apply plot_params_ext.
  assert (Forall (.∈ union_params (complete_trials study)) ps') as Hknown'.
  { rewrite Forall_forall in *. intros p Hp. by apply Hknown, Hsame. }
  rewrite !sorted_params_Some by done. do 3 f_equal.
  apply set_eq. intros p. rewrite !elem_of_list_to_set. apply Hsame.
Qed.

(** X3: listing every parameter of the completed trials is the same as
    passing no list. *)
Theorem all_params_as_default (study : Study) (ps : list string)
    (target : option (FrozenTrial → Qc)) (target_name : string) :
  (∀ p, p ∈ ps ↔ p ∈ union_params (complete_trials study)) →
  _get_parallel_coordinate_plot study (Some ps) target target_name
  = _get_parallel_coordinate_plot study None target target_name.
Proof.
  intros Hall. apply plot_params_ext.
  rewrite sorted_params_Some.
  - unfold sorted_params, select_params. simpl. do 3 f_equal.
    apply set_eq. intros p. rewrite elem_of_list_to_set. apply Hall.
  - apply Forall_forall. intros p Hp. by apply Hall.
Qed.

(** X4: trials that are not completed have no influence: two studies with
    the same completed trials and the same direction get the same result. *)
Theorem incomplete_trials_ignored (study study' : Study)
    (params : option (list string)) (target : option (FrozenTrial → Qc))
    (target_name : string) :
  complete_trials study = complete_trials study' →
  study_direction study = study_direction study' →
  _get_parallel_coordinate_plot study params target target_name
  = _get_parallel_coordinate_plot study' params target target_name.
Proof.
  intros Htrials Hdir.
  unfold _get_parallel_coordinate_plot, resolve_target.
  by rewrite Htrials, Hdir.
Qed.

(** X5: the call raises what the first axis that cannot be built raises:
    the axes built before it are dropped and no figure is returned. *)
Theorem first_failing_axis_raises (study : Study)
    (params : option (list string)) (target : option (FrozenTrial → Qc))
    (target_name : string) (pre rest : list string) (p_name : string)
    (e : exn) :
  complete_trials study ≠ [] →
  sorted_params (complete_trials study) params
  = Ok (pre ++ p_name :: rest) →
  Forall (λ q, ∃ d, build_dim (complete_trials study) q = Ok d) pre →
  build_dim (complete_trials study) p_name = Raise e →
  _get_parallel_coordinate_plot study params target target_name = Raise e.
Proof.
  intros Hne Hnames Hpre Hp.
  destruct (plot_unfold study params target target_name Hne)
    as (lo & hi & _ & ->).
  rewrite Hnames. cbn [mbind except_bind].
  by rewrite (build_dims_Raise _ _ _ _ _ e Hpre Hp).
Qed.

(** X6: on a log-scaled parameter the first raw value without a base-10
    logarithm stops the axis: a number outside the domain of [log10] raises
    the [ValueError] "math domain error", a string raises [TypeError]. *)
Theorem log_axis_bad_value_raises (trials : list FrozenTrial)
    (p_name : string) (pre post : list pyval) (v : pyval) :
  _is_log_scale trials p_name = true →
  omap (λ t, trial_params t !! p_name) trials = pre ++ v :: post →
  Forall (λ w, ∃ y, log10_of w y) pre →
  (¬ ∃ y, log10_of v y) →
  build_dim trials p_name
  = Raise (match v with
           | PNum _ => ValueError "math domain error"
           | PStr _ => TypeError
           end).
Proof.
  intros Hlog Hraw Hpre Hv. unfold build_dim, log_dim.
  rewrite Hlog, collect_values_omap, Hraw.
  by rewrite (mapM_py_log10_Raise pre post v Hpre Hv).
Qed.

(** X7: on a plain parameter (neither log-scaled nor categorical) raw
    values that mix a number and a string raise [TypeError]: [min] cannot
    compare them. *)
Theorem plain_axis_mixed_type_error (trials : list FrozenTrial)
    (p_name : string) (x : Qc) (s : string) :
  _is_log_scale trials p_name = false →
  _is_categorical trials p_name = false →
  PNum x ∈ omap (λ t, trial_params t !! p_name) trials →
  PStr s ∈ omap (λ t, trial_params t !! p_name) trials →
  build_dim trials p_name = Raise TypeError.
Proof.
  intros Hlog Hcat Hx Hs. unfold build_dim, plain_dim.
  rewrite Hlog, Hcat, collect_values_omap.
  by rewrite (py_min_mixed _ x s Hx Hs).
Qed.

(** X9: on every descriptor with ticks the tick positions are numbers in
    strictly increasing order (so no position occurs twice), the first is
    the lower end of the range and the last is the upper end. *)
Theorem ticks_increase_between_ends (study : Study)
    (params : option (list string)) (target : option (FrozenTrial → Qc))
    (target_name : string) (fig : Figure) (d : Dim) (tv : list pyval) :
  _get_parallel_coordinate_plot study params target target_name = Ok fig →
  d ∈ descriptors fig →
  tickvals d = Some tv →
  ∃ qs lo hi,
    tv = PNum <$> qs ∧ StronglySorted Qclt qs
    ∧ range d = (PNum lo, PNum hi)
    ∧ head qs = Some lo ∧ last qs = Some hi.
Proof.
  intros Hfig Hd Htv.
  destruct (plot_descriptor_inv _ _ _ _ _ _ Hfig Hd)
    as [(lo & hi & _ & ->)|(names & p & _ & _ & Hbuild)]; [done|].
  unfold build_dim in Hbuild.
  destruct (_is_log_scale (complete_trials study) p).
  - apply log_dim_Ok in Hbuild as (qs & lo & hi & _ & Hext & ->).
    simpl in Htv. injection Htv as <-.
    destruct (log_tickvals_sorted lo hi (extrema_le _ _ _ Hext))
      as (Hsorted & Hhead & Hlast).
    by exists (log_tickvals lo hi), lo, hi.
  - destruct (_is_categorical (complete_trials study) p).
    + pose proof (categorical_dim_Ok_nonempty _ _ _ Hbuild) as Hraw.
      rewrite categorical_dim_spec in Hbuild by done.
      injection Hbuild as <-. simpl in Htv. injection Htv as <-.
      destruct (code_ticks_sorted
                  (length (first_seen
                             (collect_values (complete_trials study) p))))
        as (Hsorted & Hhead & Hlast).
      { destruct (collect_values (complete_trials study) p); [done|].
        simpl. lia. }
      eexists _, _, _. split; [apply list_fmap_compose|]. done.
    + apply plain_dim_Ok in Hbuild as (? & ? & _ & _ & ->). done.
Qed.

(** X10: on every descriptor whose values are numbers (the target axis,
    log and categorical axes, plain numeric axes) the range is the least
    and the greatest of the values: both ends are values of the axis and
    every value lies between them. *)
Theorem range_is_extrema_of_values (study : Study)
    (params : option (list string)) (target : option (FrozenTrial → Qc))
    (target_name : string) (fig : Figure) (d : Dim) (qs : list Qc) :
  _get_parallel_coordinate_plot study params target target_name = Ok fig →
  d ∈ descriptors fig →
  values d = PNum <$> qs →
  ∃ lo hi, range d = (PNum lo, PNum hi) ∧ extrema qs lo hi.
Proof.
  intros Hfig Hd Hqs.
  destruct (plot_descriptor_inv _ _ _ _ _ _ Hfig Hd)
    as [(lo & hi & Hext & ->)|(names & p & _ & _ & Hbuild)].
  - simpl in Hqs. apply PNum_fmap_inj in Hqs as <-. eauto.
  - apply build_dim_range in Hbuild as [Hmin Hmax].
    rewrite Hqs in Hmin, Hmax.
    destruct (py_min_max_extrema _ _ _ Hmin Hmax) as (l & h & Hl & Hh & Hext).
    exists l, h. split; [|done]. destruct (range d). simpl in *. congruence.
Qed.

(** X11: in a returned figure the target axis has one value per completed
    trial, and every parameter axis has at least one value and no more
    values than the target axis. *)
Theorem axis_sizes (study : Study) (params : option (list string))
    (target : option (FrozenTrial → Qc)) (target_name : string)
    (fig : Figure) :
  _get_parallel_coordinate_plot study params target target_name = Ok fig →
  complete_trials study ≠ [] →
  ∃ tgt pdims,
    descriptors fig = tgt :: pdims
    ∧ length (values tgt) = length (complete_trials study)
    ∧ Forall (λ d, 1 ≤ length (values d) ≤ length (values tgt)) pdims.
Proof.
  intros Hfig Hne.
  destruct (plot_descriptors _ _ _ _ _ Hfig Hne)
    as (names & lo & hi & pdims & _ & _ & Hall & _ & Hdesc).
  eexists _, pdims. split; [done|]. simpl. rewrite !length_fmap.
  split; [done|]. apply Forall_forall. intros d Hd.
  apply list_elem_of_lookup in Hd as [i Hi].
  destruct (Forall2_lookup_r _ _ _ _ _ Hall Hi) as (p & _ & Hbuild).
  apply build_dim_Ok in Hbuild as (_ & -> & Hcol).
  rewrite collect_values_omap in *. split.
  - destruct (omap _ _); [done|]. simpl. lia.
  - rewrite length_omap_is_Some. apply length_filter.
Qed.

(** X12: a returned figure with a completed trial has one trace: its lines
    are coloured by the values of the first descriptor, which are the
    target of every completed trial, the colour bar is titled
    [target_name], the colour scale is "blues" and shown, labels are at the
    bottom at an angle of 30, and the figure is titled "Parallel Coordinate
    Plot". *)
Theorem trace_styling (study : Study) (params : option (list string))
    (target : option (FrozenTrial → Qc)) (target_name : string)
    (fig : Figure) :
  _get_parallel_coordinate_plot study params target target_name = Ok fig →
  complete_trials study ≠ [] →
  ∃ trace tgt,
    data fig = [trace] ∧ head (dimensions trace) = Some tgt
    ∧ color (line trace) = values tgt
    ∧ color (line trace)
      = (λ t, PNum (default trial_value target t)) <$> complete_trials study
    ∧ colorbar_title (line trace) = target_name
    ∧ colorscale (line trace) = "blues" ∧ showscale (line trace) = true
    ∧ labelangle trace = 30%Z ∧ labelside trace = "bottom"
    ∧ layout_title fig = "Parallel Coordinate Plot".
Proof.
  intros Hfig Hne.
  apply plot_Ok in Hfig as (names & lo & hi & pdims & _ & _ & _ & ->);
    [|done].
  eexists _, _. split; [done|]. simpl. split; [done|]. split; [done|].
  split; [|done].
  rewrite <-list_fmap_compose. by destruct target.
Qed.

(** X14: an explicit empty parameter list, with a completed trial, gives
    the figure whose only descriptor is the target axis. *)
Theorem empty_params_list (study : Study)
    (target : option (FrozenTrial → Qc)) (target_name : string) :
  complete_trials study ≠ [] →
  ∃ lo hi,
    extrema (default trial_value target <$> complete_trials study) lo hi
    ∧ _get_parallel_coordinate_plot study (Some []) target target_name
      = Ok (parcoords_figure
              [ target_axis target_name
                  (default trial_value target <$> complete_trials study)
                  lo hi ]
              target_name
              (match target with
               | Some _ => true
               | None => bool_decide (study_direction study = MINIMIZE)
               end)).
Proof.
  intros Hne.
  destruct (plot_unfold study (Some []) target target_name Hne)
    as (lo & hi & Hext & ->).
  assert ((resolve_target study target).1 = default trial_value target)
    as Htf by by destruct target.
  rewrite Htf in *. exists lo, hi. split; [done|].
  unfold sorted_params, select_params. simpl.
  rewrite elements_empty. simpl. by destruct target.
Qed.

(** X15: a parameter of the completed trials that is classified categorical
    always gets its axis, whatever its raw values are (numbers and strings
    may be mixed): this branch raises nothing. *)
Theorem categorical_axis_never_raises (trials : list FrozenTrial)
    (p_name : string) :
  p_name ∈ union_params trials →
  _is_log_scale trials p_name = false →
  _is_categorical trials p_name = true →
  build_dim trials p_name
  = Ok (categorical_axis p_name
          (omap (λ t, trial_params t !! p_name) trials)).
Proof.
  intros Hp%union_params_collect Hlog Hcat. unfold build_dim.
  rewrite Hlog, Hcat, categorical_dim_spec by done.
  by rewrite collect_values_omap.
Qed.

(** X16: the label of a parameter axis never has more than 20 characters. *)
Theorem label_at_most_20 (study : Study) (params : option (list string))
    (target : option (FrozenTrial → Qc)) (target_name : string)
    (fig : Figure) (names : list string) (i : nat) (p_name : string) :
  _get_parallel_coordinate_plot study params target target_name = Ok fig →
  sorted_params (complete_trials study) params = Ok names →
  names !! i = Some p_name →
  ∃ d, descriptors fig !! S i = Some d ∧ String.length (label d) ≤ 20.
Proof.
  intros Hfig Hnames Hi.
  destruct (plot_descriptor _ _ _ _ _ _ _ _ Hfig Hnames Hi)
    as (d & Hd & Hbuild).
  exists d. split; [done|].
  apply build_dim_Ok in Hbuild as (-> & _). apply dim_label_length.
Qed.

End Extras.

(** X13: the vocabulary left by the comprehension holds distinct keys whose
    codes are 0, 1, 2, ... in insertion order, it has no more keys than
    there are raw values, and looking a raw value up in it gives the code
    that stands for the value in the encoded list. *)
Theorem vocabulary_contiguous (raw : list pyval) :
  NoDup (encode [] raw).2.*1
  ∧ (encode [] raw).2.*2 = seq 0 (length (encode [] raw).2)
  ∧ length (encode [] raw).2 ≤ length raw
  ∧ Forall2 (λ v c, vocab_get (encode [] raw).2 v = Some c)
      raw (encode [] raw).1.
Proof.
  rewrite encode_first_seen. simpl.
  rewrite vocab_of_keys, length_vocab_of. split; [apply NoDup_first_seen|].
  split; [unfold vocab_of; apply snd_zip; by rewrite length_seq|].
  split; [apply length_first_seen|].
  apply Forall2_fmap_r, Forall_Forall2_diag, Forall_forall. intros v Hv.
  unfold vocab_of. rewrite vocab_get_zip.
  by rewrite decide_True by by apply elem_of_first_seen.
Qed.

(** X17: [vocab[v]] on any vocabulary: asking again gives the same code
    and changes nothing, every key already present keeps its code, and the
    vocabulary either stays as it is or grows by the one key [v], coded by
    its former length. *)
Theorem vocab_getitem_stable (vocab : list (pyval * nat)) (v : pyval) :
  vocab_getitem (vocab_getitem vocab v).2 v = vocab_getitem vocab v
  ∧ (∀ w c, vocab_get vocab w = Some c →
            vocab_get (vocab_getitem vocab v).2 w = Some c)
  ∧ ((vocab_getitem vocab v).2 = vocab
     ∨ (vocab_getitem vocab v = (length vocab, vocab ++ [(v, length vocab)])
        ∧ vocab_get vocab v = None)).
Proof.
  unfold vocab_getitem.
  destruct (vocab_get vocab v) as [c|] eqn:Hv; simpl.
  - rewrite Hv. split; [done|]. split; [done|]. by left.
  - rewrite vocab_get_snoc, Hv, decide_True by done.
    split; [done|]. split; [|by right].
    intros w c Hw. by rewrite vocab_get_snoc, Hw.
Qed.

(** * The further properties on the worked inputs *)

Lemma plain_axis_built_witness :
  ∃ raw lo hi,
    raw = omap (λ t, trial_params t !! "z") (complete_trials ex_study)
    ∧ py_min raw = Ok lo ∧ py_max raw = Ok hi
    ∧ descriptors ex_figure !! 3
      = Some {| label := dim_label "z"; values := raw; range := (lo, hi);
                tickvals := None; ticktext := None |}
    ∧ (∀ qs, raw = PNum <$> qs →
         ∃ l h, lo = PNum l ∧ hi = PNum h ∧ extrema qs l h).
Proof.
  apply (@plain_axis_built table_math xy_utils ex_study None no_target
           "Objective Value" ex_figure ["x"; "y"; "z"] 2 "z").
  - vm_compute. reflexivity.
  - vm_compute. reflexivity.
  - reflexivity.
  - reflexivity.
  - reflexivity.
Defined.

Lemma params_order_irrelevant_witness :
  ex_plot ex_study (Some ["y"; "x"; "y"]) no_target "Objective Value"
  = ex_plot ex_study (Some ["x"; "y"]) no_target "Objective Value".
Proof.
  apply (@params_order_irrelevant table_math xy_utils).
  - intros p. rewrite !elem_of_cons, !elem_of_nil. tauto.
  - apply (bool_decide_unpack _). vm_compute. exact I.
Defined.

Lemma all_params_as_default_witness :
  ex_plot ex_study (Some ["z"; "y"; "x"]) no_target "Objective Value"
  = ex_plot ex_study None no_target "Objective Value".
Proof.
  apply (@all_params_as_default table_math xy_utils).
  intros p.
  assert (union_params (complete_trials ex_study)
          = list_to_set ["x"; "y"; "z"]) as ->.
  { vm_compute. reflexivity. }
  rewrite elem_of_list_to_set, !elem_of_cons, !elem_of_nil. tauto.
Defined.

Lemma incomplete_trials_ignored_witness :
  ex_plot ex_study None no_target "Objective Value"
  = ex_plot ex_study_completed None no_target "Objective Value".
Proof.
  apply (@incomplete_trials_ignored table_math xy_utils).
  - vm_compute. reflexivity.
  - reflexivity.
Defined.

Lemma first_failing_axis_raises_witness :
  ex_plot ex_bad_study None no_target "Objective Value" = Raise TypeError.
Proof.
  apply (@first_failing_axis_raises table_math xy_utils ex_bad_study None
           no_target "Objective Value" ["a"] ["x"] "m").
  - vm_compute. discriminate.
  - vm_compute. reflexivity.
  - constructor; [|constructor]. eexists. vm_compute. reflexivity.
  - vm_compute. reflexivity.
Defined.

Lemma log_axis_bad_value_raises_witness :
  @build_dim table_math xy_utils (complete_trials ex_bad_study) "x"
  = Raise (ValueError "math domain error").
Proof.
  apply (@log_axis_bad_value_raises table_math xy_utils
           (complete_trials ex_bad_study) "x" [PInt 1] [] (PInt 0)).
  - reflexivity.
  - vm_compute. reflexivity.
  - constructor; [|constructor].
    exists (Qc_of_Z 0), (Qc_of_Z 1). split; [reflexivity|].
    vm_compute. reflexivity.
  - intros (y & x & Hx & Hy). injection Hx as <-.
    vm_compute in Hy. discriminate Hy.
Defined.

Lemma plain_axis_mixed_type_error_witness :
  @build_dim table_math xy_utils (complete_trials ex_bad_study) "m"
  = Raise TypeError.
Proof.
  apply (@plain_axis_mixed_type_error table_math xy_utils
           (complete_trials ex_bad_study) "m" (Qc_of_Z 1) "s").
  - reflexivity.
  - reflexivity.
  - apply (bool_decide_unpack _). vm_compute. exact I.
  - apply (bool_decide_unpack _). vm_compute. exact I.
Defined.


Lemma ticks_increase_between_ends_witness :
  ∃ qs lo hi,
    [PInt 0; PInt 1; PInt 2] = PNum <$> qs ∧ StronglySorted Qclt qs
    ∧ (PInt 0, PInt 2) = (PNum lo, PNum hi)
    ∧ head qs = Some lo ∧ last qs = Some hi.
Proof.
  apply (@ticks_increase_between_ends table_math xy_utils ex_study None
           no_target "Objective Value" ex_figure
           {| label := "x";
              values := [PInt 0; PInt 1; PInt 2; PInt 1];
              range := (PInt 0, PInt 2);
              tickvals := Some [PInt 0; PInt 1; PInt 2];
              ticktext := Some [PStr "1"; PStr "10"; PStr "100"] |}).
  - vm_compute. reflexivity.
  - right. left.
  - reflexivity.
Defined.

Lemma range_is_extrema_of_values_witness :
  ∃ lo hi,
    (PInt 0, PInt 2) = (PNum lo, PNum hi)
    ∧ extrema [Qc_of_Z 0; Qc_of_Z 1; Qc_of_Z 0; Qc_of_Z 2] lo hi.
Proof.
  apply (@range_is_extrema_of_values table_math xy_utils ex_study None
           no_target "Objective Value" ex_figure
           {| label := "y";
              values := [PInt 0; PInt 1; PInt 0; PInt 2];
              range := (PInt 0, PInt 2);
              tickvals := Some [PInt 0; PInt 1; PInt 2];
              ticktext := Some [PStr "a"; PStr "b"; PStr "c"] |}).
  - vm_compute. reflexivity.
  - right. right. left.
  - reflexivity.
Defined.

Lemma axis_sizes_witness :
  ∃ tgt pdims,
    descriptors ex_figure = tgt :: pdims
    ∧ length (values tgt) = length (complete_trials ex_study)
    ∧ Forall (λ d, 1 ≤ length (values d) ≤ length (values tgt)) pdims.
Proof.
  apply (@axis_sizes table_math xy_utils ex_study None no_target
           "Objective Value" ex_figure).
  - vm_compute. reflexivity.
  - vm_compute. discriminate.
Defined.

Lemma trace_styling_witness :
  ∃ trace tgt,
    data ex_figure = [trace] ∧ head (dimensions trace) = Some tgt
    ∧ color (line trace) = values tgt
    ∧ color (line trace)
      = (λ t, PNum (default trial_value no_target t))
          <$> complete_trials ex_study
    ∧ colorbar_title (line trace) = "Objective Value"
    ∧ colorscale (line trace) = "blues" ∧ showscale (line trace) = true
    ∧ labelangle trace = 30%Z ∧ labelside trace = "bottom"
    ∧ layout_title ex_figure = "Parallel Coordinate Plot".
Proof.
  apply (@trace_styling table_math xy_utils ex_study None no_target
           "Objective Value" ex_figure).
  - vm_compute. reflexivity.
  - vm_compute. discriminate.
Defined.

Lemma empty_params_list_witness :
  ∃ lo hi,
    extrema (default trial_value no_target <$> complete_trials ex_study)
      lo hi
    ∧ ex_plot ex_study (Some []) no_target "Objective Value"
      = Ok (parcoords_figure
              [ target_axis "Objective Value"
                  (default trial_value no_target
                     <$> complete_trials ex_study)
                  lo hi ]
              "Objective Value"
              (bool_decide (study_direction ex_study = MINIMIZE))).
Proof.
  apply (@empty_params_list table_math xy_utils ex_study no_target
           "Objective Value").
  vm_compute. discriminate.
Defined.

Lemma categorical_axis_never_raises_witness :
  @build_dim table_math xy_utils (complete_trials ex_study) "y"
  = Ok (categorical_axis "y"
          (omap (λ t, trial_params t !! "y") (complete_trials ex_study))).
Proof.
  apply (@categorical_axis_never_raises table_math xy_utils).
  - apply (bool_decide_unpack _). vm_compute. exact I.
  - reflexivity.
  - reflexivity.
Defined.

Lemma label_at_most_20_witness :
  ∃ d, descriptors ex_long_figure !! 2 = Some d
       ∧ String.length (label d) ≤ 20.
Proof.
  apply (@label_at_most_20 table_math xy_utils ex_long_study None no_target
           "Objective Value" ex_long_figure ["short"; ex_long_name] 1
           ex_long_name).
  - vm_compute. reflexivity.
  - vm_compute. reflexivity.
  - reflexivity.
Defined.

